(** * games.random: the generation, streaming and clean-up pipeline

    A shallow embedding of [back-end/server/main.js] (the markdown sanitizer
    [stripMarkdownCodeBlocks], [generateGame], [chatWithCodeAssistant],
    [generateGameStreaming] and the module cell [TheCleanCode]) and of the
    two generation routes of the Express server, with the
    properties of the specification stated over them. *)

From Stdlib Require Import List NArith ZArith Bool Arith Lia.
From Stdlib Require String Ascii.
Import ListNotations String.StringSyntax.

Set Implicit Arguments.

(* ================================================================= *)
(** * JavaScript strings *)

(** A JavaScript string is a sequence of UTF-16 code units. *)
Definition jsstring := list N.

(** ASCII literals of the source, as code units. *)
Fixpoint u (s : String.string) : jsstring :=
  match s with
  | String.EmptyString => []
  | String.String a s' => Ascii.N_of_ascii a :: u s'
  end.

Bind Scope string_scope with String.string.

Definition LF : N := 10.
Definition BACKTICK : N := 96.
Definition STAR : N := 42.
Definition HASH : N := 35.
Definition HYPHEN : N := 45.

Fixpoint jseqb (a b : jsstring) : bool :=
  match a, b with
  | [], [] => true
  | x :: a', y :: b' => N.eqb x y && jseqb a' b'
  | _, _ => false
  end.

(** ECMAScript LineTerminator: LF, CR, LS, PS. *)
Definition isLineTerminator (c : N) : bool :=
  N.eqb c 10 || N.eqb c 13 || N.eqb c 8232 || N.eqb c 8233.

(** ECMAScript WhiteSpace: TAB, VT, FF, SP, NBSP, ZWNBSP and the
    space separators (category Zs). *)
Definition isWhiteSpace (c : N) : bool :=
  N.eqb c 9 || N.eqb c 11 || N.eqb c 12 || N.eqb c 32 || N.eqb c 160
  || N.eqb c 5760 || (N.leb 8192 c && N.leb c 8202)
  || N.eqb c 8239 || N.eqb c 8287 || N.eqb c 12288 || N.eqb c 65279.

(** The class [\s], which is also what [String.prototype.trim] strips. *)
Definition isSpace (c : N) : bool := isWhiteSpace c || isLineTerminator c.

Fixpoint trimStart (s : jsstring) : jsstring :=
  match s with
  | c :: s' => if isSpace c then trimStart s' else s
  | [] => []
  end.

Definition trimEnd (s : jsstring) : jsstring := rev (trimStart (rev s)).

Definition trim (s : jsstring) : jsstring := trimEnd (trimStart s).

(** [Canonicalize] of a regular expression with flag [i] and without flag
    [u]: the upper-case mapping, except that a code unit of 128 or more is
    never mapped below 128.  Only comparisons against the ASCII letters of
    the patterns are made, for which the mapping of the other code units
    (all stay at 128 or above) is irrelevant. *)
Definition canonicalize (c : N) : N :=
  if N.leb 97 c && N.leb c 122 then c - 32 else c.

(* ================================================================= *)
(** * Regular expressions of the sanitizer

    The backtracking semantics of ECMAScript patterns, for the constructs
    the source uses.  Quantifiers are greedy and, in every pattern of the
    source, applied to a single-character atom. *)

Inductive atom : Type :=
| AChar (c : N)       (* a literal character *)
| ASpace              (* \s *)
| ANot (c : N).       (* [^c] *)

Inductive regex : Type :=
| Atom (a : atom)
| Eps
| Seq (r1 r2 : regex)
| Alt (r1 r2 : regex)
| Rep (min : nat) (a : atom)   (* a{min,}: a* is Rep 0, a+ is Rep 1 *)
| Grp (i : nat) (r : regex)    (* capturing group number i *)
| Bol                          (* ^ *)
| Eol.                         (* $ *)

Record flags : Type := { ignoreCase : bool; multiline : bool }.

Fixpoint Lit (s : jsstring) : regex :=
  match s with
  | [] => Eps
  | [c] => Atom (AChar c)
  | c :: s' => Seq (Atom (AChar c)) (Lit s')
  end.

(** [r?] for a body that cannot match the empty string. *)
Definition Opt (r : regex) : regex := Alt r Eps.

Definition atom_matches (fl : flags) (a : atom) (c : N) : bool :=
  match a with
  | AChar d => if ignoreCase fl then N.eqb (canonicalize c) (canonicalize d)
               else N.eqb c d
  | ASpace => isSpace c
  | ANot d => negb (N.eqb c d)
  end.

(** State of a match attempt: [pre] is the input before the current
    position, last character first; [suf] the input from the current
    position on; [caps] the captures made so far. *)
Definition captures := list (nat * jsstring).

Record mstate : Type := { pre : jsstring; suf : jsstring; caps : captures }.

Definition cont := mstate -> option mstate.

(** Greedy repetition of an atom, at least [min] times: take one more
    character if possible and, should the rest of the pattern fail then,
    go on from here instead. *)
Fixpoint rep (p : N -> bool) (min : nat) (pr sf : jsstring) (cs : captures)
         (k : cont) {struct sf} : option mstate :=
  let stop := match min with
              | O => k {| pre := pr; suf := sf; caps := cs |}
              | S _ => None
              end in
  match sf with
  | c :: sf' =>
      if p c then
        match rep p (Nat.pred min) (c :: pr) sf' cs k with
        | Some z => Some z
        | None => stop
        end
      else stop
  | [] => stop
  end.

Definition at_line_start (fl : flags) (pr : jsstring) : bool :=
  match pr with
  | [] => true
  | c :: _ => multiline fl && isLineTerminator c
  end.

Definition at_line_end (fl : flags) (sf : jsstring) : bool :=
  match sf with
  | [] => true
  | c :: _ => multiline fl && isLineTerminator c
  end.

Fixpoint matcher (fl : flags) (r : regex) (x : mstate) (k : cont)
  : option mstate :=
  match r with
  | Atom a =>
      match suf x with
      | c :: sf' =>
          if atom_matches fl a c
          then k {| pre := c :: pre x; suf := sf'; caps := caps x |}
          else None
      | [] => None
      end
  | Eps => k x
  | Seq r1 r2 => matcher fl r1 x (fun y => matcher fl r2 y k)
  | Alt r1 r2 =>
      match matcher fl r1 x k with
      | Some z => Some z
      | None => matcher fl r2 x k
      end
  | Rep min a => rep (atom_matches fl a) min (pre x) (suf x) (caps x) k
  | Grp i r' =>
      matcher fl r' x (fun y =>
        k {| pre := pre y; suf := suf y;
             caps := (i, firstn (length (suf x) - length (suf y)) (suf x))
                     :: caps y |})
  | Bol => if at_line_start fl (pre x) then k x else None
  | Eol => if at_line_end fl (suf x) then k x else None
  end.

(** A match attempt at one position: the length of the matched text and
    the captures. *)
Definition exec_at (fl : flags) (r : regex) (pr sf : jsstring)
  : option (nat * captures) :=
  match matcher fl r {| pre := pr; suf := sf; caps := [] |} Some with
  | Some y => Some (length sf - length (suf y), caps y)
  | None => None
  end.

(** Replacement templates: literal text and [$i]. *)
Inductive repl_part : Type :=
| RText (s : jsstring)
| RGroup (i : nat).

Fixpoint capture (i : nat) (cs : captures) : jsstring :=
  match cs with
  | [] => []
  | (j, s) :: cs' => if Nat.eqb i j then s else capture i cs'
  end.

Fixpoint substitution (tpl : list repl_part) (cs : captures) : jsstring :=
  match tpl with
  | [] => []
  | RText s :: tpl' => s ++ substitution tpl' cs
  | RGroup i :: tpl' => capture i cs ++ substitution tpl' cs
  end.

(** [String.prototype.replace] with a global pattern: scan from the left;
    at the first position where the pattern matches put the substitution
    and continue behind the match ([skip] counts its characters still to
    drop); an empty match copies one character and continues behind it. *)
Fixpoint replace_from (fl : flags) (r : regex) (tpl : list repl_part)
         (skip : nat) (pr sf : jsstring) {struct sf} : jsstring :=
  match skip with
  | S n =>
      match sf with
      | c :: sf' => replace_from fl r tpl n (c :: pr) sf'
      | [] => []
      end
  | O =>
      match exec_at fl r pr sf with
      | Some (len, cs) =>
          substitution tpl cs ++
          match sf with
          | c :: sf' =>
              match len with
              | O => c :: replace_from fl r tpl 0 (c :: pr) sf'
              | S n => replace_from fl r tpl n (c :: pr) sf'
              end
          | [] => []
          end
      | None =>
          match sf with
          | c :: sf' => c :: replace_from fl r tpl 0 (c :: pr) sf'
          | [] => []
          end
      end
  end.

Definition replace (fl : flags) (r : regex) (tpl : list repl_part)
           (s : jsstring) : jsstring :=
  replace_from fl r tpl 0 [] s.

(* ================================================================= *)
(** * The markdown sanitizer *)

Definition flags_gi : flags := {| ignoreCase := true; multiline := false |}.
Definition flags_g : flags := {| ignoreCase := false; multiline := false |}.
Definition flags_gm : flags := {| ignoreCase := false; multiline := true |}.

(** [/```(?:javascript|js|typescript|ts)?\s*/gi] *)
Definition re_fence_start : regex :=
  Seq (Lit (u "```"))
      (Seq (Opt (Alt (Lit (u "javascript"))
                (Alt (Lit (u "js"))
                (Alt (Lit (u "typescript"))
                     (Lit (u "ts"))))))
           (Rep 0 ASpace)).

(** [/\s*```/g] *)
Definition re_fence_end : regex := Seq (Rep 0 ASpace) (Lit (u "```")).

(** [/\*\*([^*]+)\*\*/g] *)
Definition re_bold : regex :=
  Seq (Lit (u "**")) (Seq (Grp 1 (Rep 1 (ANot STAR))) (Lit (u "**"))).

(** [/^---+$/gm] *)
Definition re_rule : regex :=
  Seq Bol (Seq (Lit (u "--")) (Seq (Rep 1 (AChar HYPHEN)) Eol)).

(** [/^#+\s*/gm] *)
Definition re_heading : regex :=
  Seq Bol (Seq (Rep 1 (AChar HASH)) (Rep 0 ASpace)).

(** [/\n{3,}/g] *)
Definition re_newlines : regex := Rep 3 (AChar LF).

Definition stripMarkdownCodeBlocks (text : jsstring) : jsstring :=
  trim
    (replace flags_g re_newlines [RText [LF; LF]]
    (replace flags_gm re_heading []
    (replace flags_gm re_rule []
    (replace flags_g re_bold [RGroup 1]
    (replace flags_g re_fence_end []
    (replace flags_gi re_fence_start [] text)))))).

(* ================================================================= *)
(** * Data exchanged with the model provider and with the caller *)

(** A content block of a provider message ([block.type], [block.text]). *)
Record ContentBlock : Type := { block_type : jsstring; block_text : jsstring }.

Record Usage : Type := {
  output_tokens : N;
  cache_creation_input_tokens : option N;
  cache_read_input_tokens : option N }.

Record Message : Type := {
  content : list ContentBlock;
  stop_reason : jsstring;
  usage : Usage }.

(** A thrown JavaScript error, with its [message]. *)
Record Error : Type := { message : jsstring }.

Record SystemBlock : Type := {
  sys_type : jsstring;
  sys_text : jsstring;
  cache_control : option jsstring }.

(** The [system] field is a list of blocks in the one-shot requests and a
    plain string in the streaming request. *)
Inductive SystemParam : Type :=
| SystemBlocks (bs : list SystemBlock)
| SystemText (s : jsstring).

Record ChatMessage : Type := { role : jsstring; msg_content : jsstring }.

Record Request : Type := {
  model : jsstring;
  max_tokens : N;
  system : SystemParam;
  messages : list ChatMessage }.

Inductive ApiCall : Type :=
| MessagesCreate (rq : Request)
| MessagesStream (rq : Request).

(** What a message stream does while [finalMessage] is awaited: the
    ['text'] events, each with [(textDelta, textSnapshot)], then the final
    message or the error the promise is rejected with. *)
Record StreamRun : Type := {
  texts : list (jsstring * jsstring);
  final : Error + Message }.

(** The objects handed to [onChunk]. *)
Inductive StreamEvent : Type :=
| EvChunk (text full : jsstring) (chunkNumber : nat)
| EvComplete (code totalTime : jsstring) (chunks : nat) (tokens : N)
| EvError (error : jsstring).

(** Console lines, by their template and interpolated values. *)
Inductive LogLine : Type :=
| LAsking (library : jsstring)
| LSystemPromptLength (n : nat)
| LUserMessageLength (n : nat)
| LTotalInput (n : nat)
| LApiTime (t : jsstring)
| LTokensUsed (n : N)
| LCacheCreated (n : N)
| LCacheHit (n : N)
| LGenerated
| LWarnIncomplete
| LHintMaxTokens
| LErrorCallingClaude (msg : jsstring)
| LAssistantRequest
| LChatTime (t : jsstring)
| LAssistantError (e : Error)
| LStreaming (library : jsstring)
| LStreamSystemPrompt (n : nat)
| LStreamUserMessage (n : nat)
| LStreamedChunks (n : nat)
| LStreamComplete
| LTotalTime (t : jsstring)
| LChunks (n : nat)
| LTokens (n : N)
| LStreamWarnIncomplete
| LStreamingError (msg : jsstring)
| LRequest (library description : jsstring)
| LServerGenerated
| LGenerationTime (t : jsstring)
| LServerError (msg : jsstring)
| LStreamingRequest (library description : jsstring)
| LStreamingServerError (msg : jsstring).

(** What the module is run against: the provider behind
    [anthropic.messages], the clock, and the three prompt files read when
    the module is loaded. *)
Record Runtime : Type := {
  Env : Type;
  Instant : Type;
  messages_create : Request -> Env -> (Error + Message) * Env;
  messages_stream : Request -> Env -> StreamRun * Env;
  performance_now : Env -> Instant * Env;
  (* ((endTime - startTime) / 1000).toFixed(2) *)
  seconds : Instant -> Instant -> jsstring;
  p5jsPrompt : jsstring;
  phaserPrompt : jsstring;
  AIchatbotPrompt : jsstring }.

(** [String.prototype.toUpperCase], exact on ASCII text: the small
    letters become capitals.  Code units outside ASCII, which the Unicode
    tables map among themselves or to several units, are left as they are
    here. *)
Definition upper_unit (c : N) : N :=
  if N.leb 97 c && N.leb c 122 then (c - 32)%N else c.

Definition toUpperCase (s : jsstring) : jsstring := map upper_unit s.

(* ================================================================= *)
(** * The module state and its computations *)

Section Core.

Variable R : Runtime.
(** State of the caller, which the [onChunk] callback acts on. *)
Variable C : Type.

Record World : Type := {
  TheCleanCode : jsstring;
  env : Env R;
  console : list LogLine;
  calls : list ApiCall;
  caller : C }.

(** A computation runs in a world and returns or throws.  Calls are run
    one after the other: what other requests do while a call awaits the
    provider is not part of a computation. *)
Definition M (A : Type) : Type := World -> (Error + A) * World.

Definition ret {A} (a : A) : M A := fun w => (inr a, w).

Definition throw {A} (e : Error) : M A := fun w => (inl e, w).

Definition bind {A B} (c : M A) (f : A -> M B) : M B :=
  fun w => match c w with
           | (inr a, w') => f a w'
           | (inl e, w') => (inl e, w')
           end.

Definition try_catch {A} (c : M A) (h : Error -> M A) : M A :=
  fun w => match c w with
           | (inr a, w') => (inr a, w')
           | (inl e, w') => h e w'
           end.

Notation "x <- c ;; f" := (bind c (fun x => f))
  (at level 61, c at next level, right associativity).
Notation "c ;; f" := (bind c (fun _ => f))
  (at level 61, right associativity).

Definition when (b : bool) (c : M unit) : M unit := if b then c else ret tt.

Definition console_log (l : LogLine) : M unit :=
  fun w => (inr tt, {| TheCleanCode := TheCleanCode w; env := env w;
                       console := console w ++ [l]; calls := calls w;
                       caller := caller w |}).

Definition set_TheCleanCode (s : jsstring) : M unit :=
  fun w => (inr tt, {| TheCleanCode := s; env := env w;
                       console := console w; calls := calls w;
                       caller := caller w |}).

Definition get_TheCleanCode : M jsstring := fun w => (inr (TheCleanCode w), w).

Definition now : M (Instant R) :=
  fun w => let (t, e) := performance_now R (env w) in
           (inr t, {| TheCleanCode := TheCleanCode w; env := e;
                      console := console w; calls := calls w;
                      caller := caller w |}).

(** [await anthropic.messages.create(rq)] *)
Definition anthropic_messages_create (rq : Request) : M Message :=
  fun w => let (r, e) := messages_create R rq (env w) in
           (r, {| TheCleanCode := TheCleanCode w; env := e;
                  console := console w;
                  calls := calls w ++ [MessagesCreate rq];
                  caller := caller w |}).

(** [anthropic.messages.stream(rq)] *)
Definition anthropic_messages_stream (rq : Request) : M StreamRun :=
  fun w => let (r, e) := messages_stream R rq (env w) in
           (inr r, {| TheCleanCode := TheCleanCode w; env := e;
                      console := console w;
                      calls := calls w ++ [MessagesStream rq];
                      caller := caller w |}).

(** The callback is code of the caller: it acts on the caller's state,
    cannot reach the cell of this module and is taken not to call the
    functions of this module itself.  It returns ([None]) or throws an
    error ([Some e]). *)
Definition Callback : Type := StreamEvent -> C -> option Error * C.

(** [if (onChunk) { onChunk(ev) }] *)
Definition call_onChunk (onChunk : option Callback) (ev : StreamEvent)
  : M unit :=
  match onChunk with
  | Some f =>
      fun w => let (raised, c) := f ev (caller w) in
               (match raised with Some e => inl e | None => inr tt end,
                {| TheCleanCode := TheCleanCode w; env := env w;
                   console := console w; calls := calls w;
                   caller := c |})
  | None => ret tt
  end.

Definition truthy_count (n : option N) : bool :=
  match n with
  | Some k => negb (N.eqb k 0)
  | None => false
  end.

Definition count_value (n : option N) : N :=
  match n with Some k => k | None => 0%N end.

(** [for (const block of message.content)
       if (block.type === 'text') response += block.text] *)
Fixpoint text_of_blocks (response : jsstring) (bs : list ContentBlock)
  : jsstring :=
  match bs with
  | [] => response
  | block :: bs' =>
      text_of_blocks
        (if jseqb (block_type block) (u "text")
         then response ++ block_text block else response) bs'
  end.

Definition MODEL : jsstring := u "claude-sonnet-4-5-20250929".

(** [library === 'phaser' ? phaserPrompt : p5jsPrompt] *)
Definition select_prompt (library : jsstring) : jsstring :=
  if jseqb library (u "phaser") then phaserPrompt R else p5jsPrompt R.

(** A parameter with a default value: [library = 'p5js']. *)
Definition default_arg (arg : option jsstring) (d : jsstring) : jsstring :=
  match arg with Some v => v | None => d end.

Definition generateGame (description : jsstring) (library : option jsstring)
  : M jsstring :=
  let library := default_arg library (u "p5js") in
  try_catch
    (console_log (LAsking (toUpperCase library));;
     let systemPrompt := select_prompt library in
     console_log (LSystemPromptLength (length systemPrompt));;
     console_log (LUserMessageLength (length description));;
     console_log (LTotalInput (length systemPrompt + length description));;
     startTime <- now;;
     message <- anthropic_messages_create
       {| model := MODEL;
          max_tokens := 7000;
          system := SystemBlocks
            [{| sys_type := u "text"; sys_text := systemPrompt;
                cache_control := Some (u "ephemeral") |}];
          messages := [{| role := u "user"; msg_content := description |}] |};;
     endTime <- now;;
     let apiTime := seconds R startTime endTime in
     let response := text_of_blocks [] (content message) in
     let cleanCode := stripMarkdownCodeBlocks response in
     let usage := usage message in
     console_log (LApiTime apiTime);;
     console_log (LTokensUsed (output_tokens usage));;
     when (truthy_count (cache_creation_input_tokens usage))
       (console_log
          (LCacheCreated (count_value (cache_creation_input_tokens usage))));;
     when (truthy_count (cache_read_input_tokens usage))
       (console_log
          (LCacheHit (count_value (cache_read_input_tokens usage))));;
     console_log LGenerated;;
     when (jseqb (stop_reason message) (u "max_tokens"))
       (console_log LWarnIncomplete;; console_log LHintMaxTokens);;
     set_TheCleanCode cleanCode;;
     ret cleanCode)
    (fun error =>
       console_log (LErrorCallingClaude (message error));;
       throw error).

Definition chatWithCodeAssistant (userMessage : jsstring)
           (gameCode library : option jsstring) : M jsstring :=
  try_catch
    (console_log LAssistantRequest;;
     cached <- get_TheCleanCode;;
     let PromptWithCode := AIchatbotPrompt R ++ cached in
     startTime <- now;;
     message <- anthropic_messages_create
       {| model := MODEL;
          max_tokens := 7000;
          system := SystemBlocks
            [{| sys_type := u "text"; sys_text := PromptWithCode;
                cache_control := Some (u "ephemeral") |}];
          messages := [{| role := u "user"; msg_content := userMessage |}] |};;
     endTime <- now;;
     console_log (LChatTime (seconds R startTime endTime));;
     let response := text_of_blocks [] (content message) in
     ret (trim response))
    (fun error =>
       console_log (LAssistantError error);;
       throw error).

(** The ['text'] listener; [fullResponse] and [chunkCount] are the two
    variables of the enclosing call it assigns. *)
Definition on_text (onChunk : option Callback) (vars : jsstring * nat)
           (ev : jsstring * jsstring) : M (jsstring * nat) :=
  let (textDelta, textSnapshot) := ev in
  let fullResponse := textSnapshot in
  let chunkCount := S (snd vars) in
  call_onChunk onChunk (EvChunk textDelta textSnapshot chunkCount);;
  when (Nat.eqb (Nat.modulo chunkCount 50) 0)
    (console_log (LStreamedChunks chunkCount));;
  ret (fullResponse, chunkCount).

Fixpoint emit_texts (onChunk : option Callback) (vars : jsstring * nat)
         (evs : list (jsstring * jsstring)) : M (jsstring * nat) :=
  match evs with
  | [] => ret vars
  | ev :: evs' =>
      vars' <- on_text onChunk vars ev;;
      emit_texts onChunk vars' evs'
  end.

(** [await stream.finalMessage()]: the listener runs for every text
    event, then the promise settles.  An error thrown by the listener,
    that is by the callback, goes into the stream, which ends with it: no
    further text event is handed over and the promise is rejected with an
    error of that message. *)
Definition finalMessage (onChunk : option Callback) (vars : jsstring * nat)
           (stream : StreamRun) : M (jsstring * nat * Message) :=
  vars' <- emit_texts onChunk vars (texts stream);;
  match final stream with
  | inr m => ret (vars', m)
  | inl e => throw e
  end.

Definition generateGameStreaming (description : jsstring)
           (library : option jsstring) (onChunk : option Callback)
  : M jsstring :=
  let library := default_arg library (u "p5js") in
  try_catch
    (console_log (LStreaming (toUpperCase library));;
     let systemPrompt := select_prompt library in
     console_log (LStreamSystemPrompt (length systemPrompt));;
     console_log (LStreamUserMessage (length description));;
     startTime <- now;;
     stream <- anthropic_messages_stream
       {| model := MODEL;
          max_tokens := 7000;
          system := SystemText systemPrompt;
          messages := [{| role := u "user"; msg_content := description |}] |};;
     r <- finalMessage onChunk ([], 0) stream;;
     let '(fullResponse, chunkCount, finalMsg) := r in
     endTime <- now;;
     let totalTime := seconds R startTime endTime in
     let cleanCode := stripMarkdownCodeBlocks fullResponse in
     console_log LStreamComplete;;
     console_log (LTotalTime totalTime);;
     console_log (LChunks chunkCount);;
     console_log (LTokens (output_tokens (usage finalMsg)));;
     call_onChunk onChunk
       (EvComplete cleanCode totalTime chunkCount
                   (output_tokens (usage finalMsg)));;
     when (jseqb (stop_reason finalMsg) (u "max_tokens"))
       (console_log LStreamWarnIncomplete);;
     set_TheCleanCode cleanCode;;
     ret cleanCode)
    (fun error =>
       console_log (LStreamingError (message error));;
       call_onChunk onChunk (EvError (message error));;
       throw error).

(** The world when the module has been loaded: [let TheCleanCode = ""]. *)
Definition initial_world (e : Env R) (c : C) : World :=
  {| TheCleanCode := []; env := e; console := []; calls := [];
     caller := c |}.

End Core.

Arguments now {R C}.
Arguments get_TheCleanCode {R C}.

(* ================================================================= *)
(** * The generation routes of the Express server *)

(** Values of the fields of a parsed JSON request body; [JUndefined] is
    an absent field.  Of a number only its truthiness is inspected. *)
Inductive jsval : Type :=
| JUndefined
| JNull
| JBool (b : bool)
| JNumber (z : Z)
| JString (s : jsstring)
| JObject.

Definition truthy (v : jsval) : bool :=
  match v with
  | JUndefined | JNull => false
  | JBool b => b
  | JNumber z => negb (Z.eqb z 0)
  | JString s => negb (jseqb s [])
  | JObject => true
  end.

(** [a || b] *)
Definition js_or (a b : jsval) : jsval := if truthy a then a else b.

(** [String.prototype.toLowerCase] on the code units that have an ASCII
    image: the ASCII capitals, U+212A (Kelvin sign) and U+0130.  The other
    code units are mapped among themselves by the Unicode tables and are
    left as they are here. *)
Definition lower_unit (c : N) : jsstring :=
  if N.leb 65 c && N.leb c 90 then [c + 32]%N
  else if N.eqb c 8490 then [107%N]
  else if N.eqb c 304 then [105%N; 775%N]
  else [c].

Definition toLowerCase (s : jsstring) : jsstring := flat_map lower_unit s.

Definition QUOTE : N := 34.

Inductive Payload : Type :=
| Failure (error : jsstring)              (* { success: false, error } *)
| Generated (code library : jsstring).    (* { success: true, code, library } *)

Inductive Sent : Type :=
| SentJson (p : Payload)
| SentData (ev : StreamEvent).   (* `data: ${JSON.stringify(ev)}\n\n` *)

(** The response object [res]. *)
Record Res : Type := {
  statusCode : N;
  headers : list (jsstring * jsstring);
  body : list Sent;
  ended : bool }.

Definition fresh_res : Res :=
  {| statusCode := 200; headers := []; body := []; ended := false |}.

(** [res.status(code).json(p)] *)
Definition status_json (code : N) (p : Payload) (res : Res) : Res :=
  {| statusCode := code; headers := headers res;
     body := body res ++ [SentJson p]; ended := true |}.

(** [res.json(p)] *)
Definition json (p : Payload) (res : Res) : Res :=
  {| statusCode := statusCode res; headers := headers res;
     body := body res ++ [SentJson p]; ended := true |}.

Definition setHeader (name value : jsstring) (res : Res) : Res :=
  {| statusCode := statusCode res;
     headers := headers res ++ [(name, value)];
     body := body res; ended := ended res |}.

Definition write (x : Sent) (res : Res) : Res :=
  {| statusCode := statusCode res; headers := headers res;
     body := body res ++ [x]; ended := ended res |}.

Definition end_res (res : Res) : Res :=
  {| statusCode := statusCode res; headers := headers res;
     body := body res; ended := true |}.

Record Body : Type := { description : jsval; library : jsval }.

Section Server.

Variable R : Runtime.

Notation "x <- c ;; f" := (bind c (fun x => f))
  (at level 61, c at next level, right associativity).
Notation "c ;; f" := (bind c (fun _ => f))
  (at level 61, right associativity).

Definition on_res (f : Res -> Res) : M R Res unit :=
  fun w => (inr tt, {| TheCleanCode := TheCleanCode w; env := env w;
                       console := console w; calls := calls w;
                       caller := f (caller w) |}).

(** A string method called on a body field: a [TypeError] unless the
    field holds a string. *)
Definition call_string_method (what : jsstring) (f : jsstring -> jsstring)
           (v : jsval) : M R Res jsstring :=
  match v with
  | JString s => ret (f s)
  | _ => throw {| message := what ++ u " is not a function" |}
  end.

Definition includes (xs : list jsstring) (x : jsstring) : bool :=
  existsb (jseqb x) xs.

Definition string_of (v : jsval) : jsstring :=
  match v with JString s => s | _ => [] end.

(** [app.post('/api/generate', ...)] *)
Definition api_generate (req_body : Body) : M R Res unit :=
  try_catch
    (let description := description req_body in
     let library := library req_body in
     if negb (truthy description) then
       on_res (status_json 400 (Failure (u
         "Description is required. Please describe the game you want to create.")))
     else
     trimmed <- call_string_method (u "description.trim") trim description;;
     if Nat.ltb (length trimmed) 5 then
       on_res (status_json 400 (Failure (u
         "Description is too short. Please provide more details.")))
     else
     if negb (truthy library) then
       on_res (status_json 400 (Failure
         (u "Library is required. Choose either " ++ [QUOTE] ++ u "p5js"
          ++ [QUOTE] ++ u " or " ++ [QUOTE] ++ u "phaser" ++ [QUOTE]
          ++ u ".")))
     else
     normalizedLibrary <-
       call_string_method (u "library.toLowerCase") toLowerCase library;;
     if negb (includes [u "p5js"; u "phaser"] normalizedLibrary) then
       on_res (status_json 400 (Failure
         (u "Invalid library. Must be either " ++ [QUOTE] ++ u "p5js"
          ++ [QUOTE] ++ u " or " ++ [QUOTE] ++ u "phaser" ++ [QUOTE]
          ++ u ".")))
     else
     console_log (LRequest normalizedLibrary (string_of description));;
     startTime <- now;;
     gameCode <- generateGame (string_of description) (Some normalizedLibrary);;
     endTime <- now;;
     console_log LServerGenerated;;
     console_log (LGenerationTime (seconds R startTime endTime));;
     on_res (json (Generated gameCode normalizedLibrary)))
    (fun error =>
       console_log (LServerError (message error));;
       on_res (status_json 500 (Failure (message error)))).

(** [app.post('/api/generate-stream', ...)] *)
Definition api_generate_stream (req_body : Body) : M R Res unit :=
  try_catch
    (let description := description req_body in
     let library := library req_body in
     tooShort <-
       (if negb (truthy description) then ret true
        else trimmed <-
               call_string_method (u "description.trim") trim description;;
             ret (Nat.ltb (length trimmed) 5));;
     if (tooShort : bool) then
       on_res (status_json 400 (Failure (u
         "Description is required and must be at least 5 characters.")))
     else
     normalizedLibrary <-
       call_string_method
         (u "(library || " ++ [QUOTE] ++ u "p5js" ++ [QUOTE]
          ++ u ").toLowerCase")
         toLowerCase (js_or library (JString (u "p5js")));;
     if negb (includes [u "p5js"; u "phaser"] normalizedLibrary) then
       on_res (status_json 400 (Failure
         (u "Invalid library. Must be either " ++ [QUOTE] ++ u "p5js"
          ++ [QUOTE] ++ u " or " ++ [QUOTE] ++ u "phaser" ++ [QUOTE]
          ++ u ".")))
     else
     console_log
       (LStreamingRequest normalizedLibrary (string_of description));;
     on_res (setHeader (u "Content-Type") (u "text/event-stream"));;
     on_res (setHeader (u "Cache-Control") (u "no-cache"));;
     on_res (setHeader (u "Connection") (u "keep-alive"));;
     on_res (setHeader (u "X-Accel-Buffering") (u "no"));;
     generateGameStreaming (string_of description) (Some normalizedLibrary)
       (Some (fun data res => (None, write (SentData data) res)));;
     on_res end_res)
    (fun error =>
       console_log (LStreamingServerError (message error));;
       on_res (write (SentData (EvError (message error))));;
       on_res end_res).

End Server.

(* ================================================================= *)
(** * Vocabulary of the properties *)

(** ** Texts *)

Fixpoint starts_with (p s : jsstring) : bool :=
  match p, s with
  | [], _ => true
  | a :: p', b :: s' => N.eqb a b && starts_with p' s'
  | _ :: _, [] => false
  end.

(** [p] occurs somewhere in [s]. *)
Fixpoint contains (p s : jsstring) : bool :=
  starts_with p s ||
  match s with
  | _ :: s' => contains p s'
  | [] => false
  end.

(** [p] occurs in [sf] at the start of a line, [pr] being the text before
    [sf], last character first. *)
Fixpoint line_start_from (p pr sf : jsstring) : bool :=
  (at_line_start flags_gm pr && starts_with p sf) ||
  match sf with
  | c :: sf' => line_start_from p (c :: pr) sf'
  | [] => false
  end.

(** Some line of [s] starts with [p]. *)
Definition some_line_starts_with (p s : jsstring) : bool :=
  line_start_from p [] s.

(** The pattern matches at some position from [sf] on. *)
Fixpoint has_match (fl : flags) (r : regex) (pr sf : jsstring) : bool :=
  match exec_at fl r pr sf with
  | Some _ => true
  | None =>
      match sf with
      | c :: sf' => has_match fl r (c :: pr) sf'
      | [] => false
      end
  end.

(** Number of line feeds [s] starts with. *)
Fixpoint leading_LF (s : jsstring) : nat :=
  match s with
  | c :: s' => if N.eqb c LF then S (leading_LF s') else 0
  | [] => 0
  end.

Definition fence : jsstring := u "```".
Definition bold_mark : jsstring := u "**".
Definition rule_mark : jsstring := u "---".
Definition heading_mark : jsstring := u "#".

(** The input of the worked example of the specification. *)
Definition example_input : jsstring :=
  u "```js" ++ [LF] ++ u "**bold** text" ++ [LF] ++ u "---" ++ [LF]
  ++ u "# Heading" ++ [LF; LF; LF; LF] ++ u "line" ++ [LF] ++ u "```".

(** ** Calls *)

(** A callback that keeps what it is handed, in order. *)
Definition record_event : Callback (list StreamEvent) :=
  fun ev l => (None, l ++ [ev]).

(** The chunk events of a list of text events, numbered after [n]. *)
Fixpoint chunk_events (n : nat) (evs : list (jsstring * jsstring))
  : list StreamEvent :=
  match evs with
  | [] => []
  | (textDelta, textSnapshot) :: evs' =>
      EvChunk textDelta textSnapshot (S n) :: chunk_events (S n) evs'
  end.


(** The last snapshot, [""] when there was no text event: the value of
    [fullResponse] when the stream has ended. *)
Definition last_snapshot (evs : list (jsstring * jsstring)) : jsstring :=
  snd (last evs ([], [])).

Definition is_error (ev : StreamEvent) : bool :=
  match ev with EvError _ => true | _ => false end.

Definition is_complete (ev : StreamEvent) : bool :=
  match ev with EvComplete _ _ _ _ => true | _ => false end.

Definition is_chunk (ev : StreamEvent) : bool :=
  match ev with EvChunk _ _ _ => true | _ => false end.





(** The provider reports that the output-length limit was hit. *)
Definition truncated (m : Message) : bool :=
  jseqb (stop_reason m) (u "max_tokens").

Definition system_text (s : SystemParam) : jsstring :=
  match s with
  | SystemBlocks bs => concat (map sys_text bs)
  | SystemText t => t
  end.

Definition request_of (c : ApiCall) : Request :=
  match c with MessagesCreate rq | MessagesStream rq => rq end.

Definition is_stream_call (c : ApiCall) : bool :=
  match c with MessagesStream _ => true | MessagesCreate _ => false end.

Section Calls.

Variable R : Runtime.
Variable C : Type.

Definition generate_request (description : jsstring)
           (library : option jsstring) : Request :=
  {| model := MODEL;
     max_tokens := 7000;
     system := SystemBlocks
       [{| sys_type := u "text";
           sys_text := select_prompt R (default_arg library (u "p5js"));
           cache_control := Some (u "ephemeral") |}];
     messages := [{| role := u "user"; msg_content := description |}] |}.

Definition stream_request (description : jsstring)
           (library : option jsstring) : Request :=
  {| model := MODEL;
     max_tokens := 7000;
     system := SystemText (select_prompt R (default_arg library (u "p5js")));
     messages := [{| role := u "user"; msg_content := description |}] |}.

Definition chat_request (userMessage cached : jsstring) : Request :=
  {| model := MODEL;
     max_tokens := 7000;
     system := SystemBlocks
       [{| sys_type := u "text"; sys_text := AIchatbotPrompt R ++ cached;
           cache_control := Some (u "ephemeral") |}];
     messages := [{| role := u "user"; msg_content := userMessage |}] |}.

(** What the provider does with a request made in world [w], the clock
    having been read once before, as all three functions do. *)
Definition answer_of_create (rq : Request) (w : World R C)
  : Error + Message :=
  fst (messages_create R rq (snd (performance_now R (env w)))).

Definition run_of_stream (rq : Request) (w : World R C) : StreamRun :=
  fst (messages_stream R rq (snd (performance_now R (env w)))).

(** A callback handed the events [evs] in order, up to the first one it
    throws on: the error thrown, if any, and the caller's state then. *)
Fixpoint hand (f : Callback C) (evs : list StreamEvent) (c : C)
  : option Error * C :=
  match evs with
  | [] => (None, c)
  | ev :: evs' =>
      match f ev c with
      | (None, c') => hand f evs' c'
      | (Some e, c') => (Some e, c')
      end
  end.

(** The caller's state after its callback, if there is one, has been
    handed the events [evs] in order, up to the first one it throws on. *)
Definition deliver (onChunk : option (Callback C)) (evs : list StreamEvent)
           (c : C) : C :=
  match onChunk with
  | Some f => snd (hand f evs c)
  | None => c
  end.

(** What the callback throws when it is handed [evs] in order. *)
Definition thrown (onChunk : option (Callback C)) (evs : list StreamEvent)
           (c : C) : option Error :=
  match onChunk with
  | Some f => fst (hand f evs c)
  | None => None
  end.

(** The error that reaches the [catch] block of a streaming call: what
    the callback threw on a chunk event or on the complete event, or else
    what the stream failed with. *)
Definition caught (t : option Error) (fin : Error + Message)
  : option Error :=
  match t, fin with
  | Some e, _ => Some e
  | None, inl e => Some e
  | None, inr _ => None
  end.

(** The callback, if there is one, never throws. *)
Definition returns_normally (onChunk : option (Callback C)) : Prop :=
  forall ev c, thrown onChunk [ev] c = None.

(** One call of an exported function of the module. *)
Inductive call_step : World R C -> World R C -> Prop :=
| step_generateGame description library w :
    call_step w (snd (generateGame description library w))
| step_generateGameStreaming description library onChunk w :
    call_step w (snd (generateGameStreaming description library onChunk w))
| step_chatWithCodeAssistant userMessage gameCode library w :
    call_step w
      (snd (chatWithCodeAssistant userMessage gameCode library w)).

(** The worlds the module can be in, whatever the caller's state. *)
Inductive reachable : World R C -> Prop :=
| reach_initial e c : reachable (@initial_world R C e c)
| reach_caller w f :
    reachable w ->
    reachable {| TheCleanCode := TheCleanCode w; env := env w;
                 console := console w; calls := calls w;
                 caller := f (caller w) |}
| reach_step w w' : reachable w -> call_step w w' -> reachable w'.

End Calls.

(** ** A provider to run examples against

    It answers every request with one text block holding [reply] (streamed
    in the two deltas [d1], [d2] when streaming) and the given stop
    reason, or fails with [failure] when there is one. *)
Definition scripted_message (reply stop : jsstring) : Message :=
  {| content := [{| block_type := u "text"; block_text := reply |}];
     stop_reason := stop;
     usage := {| output_tokens := 12;
                 cache_creation_input_tokens := None;
                 cache_read_input_tokens := None |} |}.

Definition scripted (d1 d2 stop : jsstring) (failure : option Error)
  : Runtime :=
  {| Env := unit;
     Instant := unit;
     messages_create := fun _ e =>
       (match failure with
        | Some err => inl err
        | None => inr (scripted_message (d1 ++ d2) stop)
        end, e);
     messages_stream := fun _ e =>
       ({| texts := [(d1, d1); (d2, d1 ++ d2)];
           final := match failure with
                    | Some err => inl err
                    | None => inr (scripted_message (d1 ++ d2) stop)
                    end |}, e);
     performance_now := fun e => (tt, e);
     seconds := fun _ _ => u "0.00";
     p5jsPrompt := u "P5";
     phaserPrompt := u "PH";
     AIchatbotPrompt := u "ASSIST:" |}.

Definition demo_ok : Runtime :=
  scripted (u "```js" ++ [LF] ++ u "let x") (u " = 1;" ++ [LF] ++ u "```")
           (u "end_turn") None.

Definition demo_truncated : Runtime :=
  scripted (u "```js" ++ [LF] ++ u "let x") (u " = 1;" ++ [LF] ++ u "```")
           (u "max_tokens") None.

Definition demo_failing : Runtime :=
  scripted (u "let") (u " x") (u "end_turn")
           (Some {| message := u "overloaded" |}).



(** A callback that keeps what it is handed, in order, and throws [e]
    when it is handed a complete event. *)
Definition record_until_complete (e : Error) : Callback (list StreamEvent) :=
  fun ev l => (if is_complete ev then Some e else None, l ++ [ev]).

(* ================================================================= *)
(** * The chat route of the Express server *)

Record ChatBody : Type := {
  chat_message : jsval;
  chat_gameCode : jsval;
  chat_library : jsval }.

Inductive ChatPayload : Type :=
| ChatFailure (error : jsstring)   (* { success: false, error } *)
| ChatReply (reply : jsstring).    (* { success: true, reply } *)

(** Console lines of the chat route. *)
Inductive ChatLogLine : Type :=
| LChatRequest (library : jsval)
| LChatbotError (msg : jsstring).

(** The response object of the chat route and the lines the route itself
    writes to the console. *)
Record ChatSide : Type := {
  chat_statusCode : N;
  chat_sent : list ChatPayload;
  chat_ended : bool;
  chat_console : list ChatLogLine }.


(** [res.status(code).json(p)] *)
Definition chat_status_json (code : N) (p : ChatPayload) (c : ChatSide)
  : ChatSide :=
  {| chat_statusCode := code; chat_sent := chat_sent c ++ [p];
     chat_ended := true; chat_console := chat_console c |}.

(** [res.json(p)] *)
Definition chat_json (p : ChatPayload) (c : ChatSide) : ChatSide :=
  {| chat_statusCode := chat_statusCode c; chat_sent := chat_sent c ++ [p];
     chat_ended := true; chat_console := chat_console c |}.

Definition chat_log (l : ChatLogLine) (c : ChatSide) : ChatSide :=
  {| chat_statusCode := chat_statusCode c; chat_sent := chat_sent c;
     chat_ended := chat_ended c; chat_console := chat_console c ++ [l] |}.

(** A body field handed on as an argument that is a string or absent;
    [chatWithCodeAssistant] reads neither of the two it is handed. *)
Definition string_arg (v : jsval) : option jsstring :=
  match v with JString s => Some s | _ => None end.

Section ChatRoute.

Variable R : Runtime.

Notation "x <- c ;; f" := (bind c (fun x => f))
  (at level 61, c at next level, right associativity).
Notation "c ;; f" := (bind c (fun _ => f))
  (at level 61, right associativity).

Definition on_chat (f : ChatSide -> ChatSide) : M R ChatSide unit :=
  fun w => (inr tt, {| TheCleanCode := TheCleanCode w; env := env w;
                       console := console w; calls := calls w;
                       caller := f (caller w) |}).

(** [message.trim()]: a [TypeError] unless the field holds a string. *)
Definition message_trim (v : jsval) : M R ChatSide jsstring :=
  match v with
  | JString s => ret (trim s)
  | _ => throw {| message := u "message.trim is not a function" |}
  end.

(** [app.post('/api/chat', ...)] *)
Definition api_chat (req_body : ChatBody) : M R ChatSide unit :=
  try_catch
    (let message := chat_message req_body in
     let gameCode := chat_gameCode req_body in
     let library := chat_library req_body in
     blank <-
       (if negb (truthy message) then ret true
        else trimmed <- message_trim message;;
             ret (Nat.eqb (length trimmed) 0));;
     if (blank : bool) then
       on_chat (chat_status_json 400 (ChatFailure (u "Message is required.")))
     else
     if negb (truthy gameCode) || negb (truthy library) then
       on_chat (chat_status_json 400 (ChatFailure (u
         "Game code and library information are required.")))
     else
     on_chat (chat_log (LChatRequest library));;
     reply <- chatWithCodeAssistant (string_of message)
                (string_arg gameCode) (string_arg library);;
     on_chat (chat_json (ChatReply reply)))
    (fun error =>
       on_chat (chat_log (LChatbotError (message error)));;
       on_chat (chat_status_json 500 (ChatFailure (message error)))).

End ChatRoute.

(* ================================================================= *)
(** * Further vocabulary *)

(** The text starts with the literal [p], as a pattern with flags [fl]
    compares characters. *)
Fixpoint lit_matches (fl : flags) (p s : jsstring) : bool :=
  match p, s with
  | [], _ => true
  | d :: p', c :: s' => atom_matches fl (AChar d) c && lit_matches fl p' s'
  | _ :: _, [] => false
  end.

(** No character of [s] is white space. *)
Definition no_space (s : jsstring) : bool :=
  forallb (fun d => negb (isSpace d)) s.

(** The language tags the opening fence pattern knows, and no tag. *)
Definition fence_tags : list jsstring :=
  [[]; u "javascript"; u "js"; u "typescript"; u "ts"].

(** No character of [s] is [c]. *)
Definition without (c : N) (s : jsstring) : bool :=
  forallb (fun d => negb (N.eqb d c)) s.

(** The block is of type ['text']. *)
Definition is_text_block (b : ContentBlock) : bool :=
  jseqb (block_type b) (u "text").

(** The body field holds a string. *)
Definition is_string (v : jsval) : bool :=
  match v with JString _ => true | _ => false end.

(** The callback of the streaming route: one frame per event. *)
Definition sse_callback : Callback Res :=
  fun data res => (None, write (SentData data) res).

(** The four headers of an event stream, set on [res]. *)
Definition sse_headers (res : Res) : Res :=
  setHeader (u "X-Accel-Buffering") (u "no")
    (setHeader (u "Connection") (u "keep-alive")
       (setHeader (u "Cache-Control") (u "no-cache")
          (setHeader (u "Content-Type") (u "text/event-stream") res))).

Section RouteWorlds.

Variable R : Runtime.

(** The world in which the one-shot route calls [generateGame]: the
    request is on the console and the clock has been read. *)
Definition generate_route_world (library description : jsstring)
           (w : World R Res) : World R Res :=
  {| TheCleanCode := TheCleanCode w;
     env := snd (performance_now R (env w));
     console := console w ++ [LRequest library description];
     calls := calls w;
     caller := caller w |}.

(** The world in which the streaming route calls
    [generateGameStreaming]: the request is on the console and the
    headers are set. *)
Definition stream_route_world (library description : jsstring)
           (w : World R Res) : World R Res :=
  {| TheCleanCode := TheCleanCode w;
     env := env w;
     console := console w ++ [LStreamingRequest library description];
     calls := calls w;
     caller := sse_headers (caller w) |}.


(** A world with another response object. *)
Definition with_caller {C : Type} (c : C) (w : World R C) : World R C :=
  {| TheCleanCode := TheCleanCode w; env := env w; console := console w;
     calls := calls w; caller := c |}.

End RouteWorlds.

(* ================================================================= *)
(** * Properties of the sanitizer *)

Unset Implicit Arguments.

(** ** Texts *)

Lemma jseqb_refl (a : jsstring) : jseqb a a = true.
Proof.
  induction a as [|x a IH]; simpl; [reflexivity|].
  now rewrite N.eqb_refl, IH.
Qed.

Lemma jseqb_eq (a b : jsstring) : jseqb a b = true <-> a = b.
Proof.
  split; [|intros ->; apply jseqb_refl].
  revert b; induction a as [|x a IH]; intros [|y b]; simpl; try discriminate.
  - reflexivity.
  - intros H. apply andb_true_iff in H as [Hx Hab].
    apply N.eqb_eq in Hx. now rewrite Hx, (IH _ Hab).
Qed.

Lemma starts_with_app (p a b : jsstring) :
  starts_with p a = true -> starts_with p (a ++ b) = true.
Proof.
  revert a; induction p as [|x p IH]; intros [|y a]; simpl; try easy.
  intros H. apply andb_true_iff in H as [-> H]. simpl. auto.
Qed.

Lemma contains_app_l (p a b : jsstring) :
  contains p a = true -> contains p (a ++ b) = true.
Proof.
  induction a as [|y a IH]; simpl.
  - rewrite orb_false_r. intros H. destruct p; [|discriminate].
    destruct b; reflexivity.
  - intros H. apply orb_true_iff in H as [H|H]; apply orb_true_iff.
    + left. now apply (starts_with_app p (y :: a) b).
    + right. auto.
Qed.

Lemma contains_app_r (p a b : jsstring) :
  contains p b = true -> contains p (a ++ b) = true.
Proof.
  intros H. induction a as [|y a IH]; simpl; [exact H|].
  rewrite IH. apply orb_true_r.
Qed.

Lemma contains_skipn (p : jsstring) (n : nat) (s : jsstring) :
  contains p (skipn n s) = true -> contains p s = true.
Proof.
  intros H. rewrite <- (firstn_skipn n s). now apply contains_app_r.
Qed.

Lemma starts_with_contains (p s : jsstring) :
  starts_with p s = true -> contains p s = true.
Proof.
  intros H. destruct s; simpl in *; rewrite H; reflexivity.
Qed.

(** ** Trimming *)

Lemma trimStart_suffix (s : jsstring) : exists w, s = w ++ trimStart s.
Proof.
  induction s as [|c s [w IH]]; simpl.
  - now exists [].
  - destruct (isSpace c).
    + exists (c :: w). simpl. now rewrite <- IH.
    + now exists [].
Qed.

Lemma trimStart_fixed (s : jsstring) :
  match s with c :: _ => isSpace c = false | [] => True end ->
  trimStart s = s.
Proof. destruct s as [|c s]; simpl; [easy|]. now intros ->. Qed.

Lemma trimStart_head (s : jsstring) :
  match trimStart s with c :: _ => isSpace c = false | [] => True end.
Proof.
  induction s as [|c s IH]; simpl; [exact I|].
  destruct (isSpace c) eqn:E; [exact IH|exact E].
Qed.

Lemma trimStart_idem (s : jsstring) : trimStart (trimStart s) = trimStart s.
Proof. apply trimStart_fixed, trimStart_head. Qed.

Lemma trimEnd_prefix (s : jsstring) : exists w, s = trimEnd s ++ w.
Proof.
  unfold trimEnd. destruct (trimStart_suffix (rev s)) as [w H].
  exists (rev w). rewrite <- rev_app_distr, <- H. now rewrite rev_involutive.
Qed.

Lemma trimEnd_idem (s : jsstring) : trimEnd (trimEnd s) = trimEnd s.
Proof.
  unfold trimEnd. now rewrite rev_involutive, trimStart_idem.
Qed.

Lemma trim_idem (s : jsstring) : trim (trim s) = trim s.
Proof.
  unfold trim.
  assert (H : trimStart (trimEnd (trimStart s)) = trimEnd (trimStart s)).
  { apply trimStart_fixed.
    destruct (trimEnd_prefix (trimStart s)) as [w Hw].
    pose proof (trimStart_head s) as Hh.
    destruct (trimEnd (trimStart s)) as [|c t]; [exact I|].
    rewrite Hw in Hh. exact Hh. }
  now rewrite H, trimEnd_idem.
Qed.

Lemma contains_trim (p s : jsstring) :
  contains p (trim s) = true -> contains p s = true.
Proof.
  unfold trim. intros H.
  destruct (trimStart_suffix s) as [w1 H1].
  destruct (trimEnd_prefix (trimStart s)) as [w2 H2].
  rewrite H1, H2. now apply contains_app_r, contains_app_l.
Qed.

(** ** The matcher *)

(** A successful repetition stopped after some [n >= min] characters of
    the class, and the rest of the pattern succeeded from there. *)
Lemma rep_some (p : N -> bool) (k : cont) (z : mstate) :
  forall sf min pr cs,
    rep p min pr sf cs k = Some z ->
    exists n, min <= n /\ n <= length sf /\
              forallb p (firstn n sf) = true /\
              k {| pre := rev (firstn n sf) ++ pr; suf := skipn n sf;
                   caps := cs |} = Some z.
Proof.
  induction sf as [|c sf IH]; intros min pr cs H; simpl in H.
  - destruct min; [|discriminate]. exists 0. simpl. auto.
  - assert (Hstop :
      match min with
      | 0 => k {| pre := pr; suf := c :: sf; caps := cs |}
      | S _ => None
      end = Some z ->
      exists n, min <= n /\ n <= length (c :: sf) /\
                forallb p (firstn n (c :: sf)) = true /\
                k {| pre := rev (firstn n (c :: sf)) ++ pr;
                     suf := skipn n (c :: sf); caps := cs |} = Some z).
    { destruct min; [|discriminate]. intros Hk. exists 0. simpl.
      repeat split; auto with arith. }
    destruct (p c) eqn:Hc; [|auto].
    destruct (rep p (Nat.pred min) (c :: pr) sf cs k) eqn:Hr; [|auto].
    injection H as ->.
    destruct (IH _ _ _ Hr) as (n & Hmin & Hlen & Hall & Hk).
    exists (S n). simpl. rewrite Hc, Hall, <- app_assoc. simpl.
    repeat split; auto; lia.
Qed.

Lemma matcher_seq (fl : flags) (r1 r2 : regex) (x : mstate) (k : cont) :
  matcher fl (Seq r1 r2) x k = matcher fl r1 x (fun y => matcher fl r2 y k).
Proof. reflexivity. Qed.

Lemma matcher_rep (fl : flags) (min : nat) (a : atom) (x : mstate)
      (k : cont) :
  matcher fl (Rep min a) x k =
  rep (atom_matches fl a) min (pre x) (suf x) (caps x) k.
Proof. reflexivity. Qed.

Lemma matcher_bol (fl : flags) (x : mstate) (k : cont) :
  matcher fl Bol x k = if at_line_start fl (pre x) then k x else None.
Proof. reflexivity. Qed.

Lemma matcher_atom (fl : flags) (a : atom) (x z : mstate) (k : cont) :
  matcher fl (Atom a) x k = Some z ->
  exists c sf', suf x = c :: sf' /\ atom_matches fl a c = true /\
                k {| pre := c :: pre x; suf := sf'; caps := caps x |} = Some z.
Proof.
  simpl. destruct (suf x) as [|c sf']; [discriminate|].
  destruct (atom_matches fl a c) eqn:E; [|discriminate].
  intros H. now exists c, sf'.
Qed.

(** A literal whose characters match only themselves matches only where
    the text starts with it. *)
Lemma matcher_lit (fl : flags) (p : jsstring) :
  (forall d c, In d p -> atom_matches fl (AChar d) c = true -> c = d) ->
  forall (x z : mstate) (k : cont),
    matcher fl (Lit p) x k = Some z ->
    starts_with p (suf x) = true /\
    k {| pre := rev p ++ pre x; suf := skipn (length p) (suf x);
         caps := caps x |} = Some z.
Proof.
  induction p as [|c p IH]; intros Hex x z k H.
  - simpl in *. destruct x; auto.
  - destruct p as [|c' p].
    + apply matcher_atom in H as (d & sf' & Hs & Hm & Hk).
      apply Hex in Hm; [|now left]. subst d.
      rewrite Hs. simpl. rewrite N.eqb_refl. auto.
    + change (Lit (c :: c' :: p)) with (Seq (Atom (AChar c)) (Lit (c' :: p)))
        in H.
      simpl matcher in H.
      apply (matcher_atom fl (AChar c) x z
               (fun y => matcher fl (Lit (c' :: p)) y k)) in H
        as (d & sf' & Hs & Hm & Hk).
      apply Hex in Hm; [|now left]. subst d.
      apply IH in Hk as [Hp Hk]; [|intros; apply Hex; [now right|easy]].
      simpl suf in *. simpl pre in *. simpl caps in *. rewrite Hs.
      split.
      * change (starts_with (c :: c' :: p) (c :: sf'))
          with (N.eqb c c && starts_with (c' :: p) sf').
        now rewrite N.eqb_refl, Hp.
      * change (rev (c :: c' :: p)) with (rev (c' :: p) ++ [c]).
        rewrite <- app_assoc. exact Hk.
Qed.

Lemma exact_case_sensitive (fl : flags) (p : jsstring) :
  ignoreCase fl = false ->
  forall d c, In d p -> atom_matches fl (AChar d) c = true -> c = d.
Proof.
  intros Hfl d c _ H. simpl in H. rewrite Hfl in H. now apply N.eqb_eq.
Qed.

Lemma canonicalize_backtick (c : N) :
  N.eqb (canonicalize c) (canonicalize BACKTICK) = true -> c = BACKTICK.
Proof.
  unfold canonicalize, BACKTICK. simpl.
  destruct (N.leb 97 c && N.leb c 122) eqn:E; intros H;
    apply N.eqb_eq in H.
  - apply andb_true_iff in E as [E1 E2].
    apply N.leb_le in E1, E2. lia.
  - exact H.
Qed.

(** ** Replacement *)

Lemma replace_from_skip (fl : flags) (r : regex) (tpl : list repl_part) :
  forall sf n pr,
    n <= length sf ->
    replace_from fl r tpl n pr sf =
    replace_from fl r tpl 0 (rev (firstn n sf) ++ pr) (skipn n sf).
Proof.
  induction sf as [|c sf IH]; intros [|n] pr Hn; simpl in Hn;
    try reflexivity; try lia.
  simpl replace_from at 1. rewrite IH by lia.
  simpl. now rewrite <- app_assoc.
Qed.

(** Where the pattern matches nowhere, nothing is replaced. *)
Lemma replace_without_match (fl : flags) (r : regex) (tpl : list repl_part) :
  forall sf pr,
    has_match fl r pr sf = false -> replace_from fl r tpl 0 pr sf = sf.
Proof.
  induction sf as [|c sf IH]; intros pr H; simpl in *.
  - now destruct (exec_at fl r pr []).
  - destruct (exec_at fl r pr (c :: sf)); [discriminate|].
    now rewrite IH.
Qed.

Lemma no_match_unanchored (fl : flags) (r : regex) (p : jsstring) :
  (forall pr sf m, exec_at fl r pr sf = Some m -> contains p sf = true) ->
  forall s pr, contains p s = false -> has_match fl r pr s = false.
Proof.
  intros Hex. induction s as [|c s IH]; intros pr H; simpl.
  - destruct (exec_at fl r pr []) eqn:E; [|reflexivity].
    apply Hex in E. congruence.
  - destruct (exec_at fl r pr (c :: s)) eqn:E.
    + apply Hex in E. congruence.
    + apply IH. simpl in H. now apply orb_false_iff in H as [_ H].
Qed.

Lemma no_match_anchored (r : regex) (p : jsstring) :
  (forall pr sf m, exec_at flags_gm r pr sf = Some m ->
                   at_line_start flags_gm pr && starts_with p sf = true) ->
  forall s pr, line_start_from p pr s = false ->
               has_match flags_gm r pr s = false.
Proof.
  intros Hex. induction s as [|c s IH]; intros pr H; simpl in *.
  - destruct (exec_at flags_gm r pr []) eqn:E; [|reflexivity].
    apply Hex in E. rewrite E in H. discriminate.
  - apply orb_false_iff in H as [H1 H2].
    destruct (exec_at flags_gm r pr (c :: s)) eqn:E.
    + apply Hex in E. congruence.
    + now apply IH.
Qed.

(** ** Where the patterns of the sanitizer can match *)

Lemma exact_fence_gi :
  forall d c, In d fence -> atom_matches flags_gi (AChar d) c = true -> c = d.
Proof.
  intros d c Hd H.
  assert (d = BACKTICK) as -> by (simpl in Hd; unfold BACKTICK; intuition).
  now apply canonicalize_backtick.
Qed.

Lemma fence_start_match (pr sf : jsstring) (m : nat * captures) :
  exec_at flags_gi re_fence_start pr sf = Some m -> contains fence sf = true.
Proof.
  unfold exec_at, re_fence_start.
  destruct (matcher _ _ _ _) as [z|] eqn:E; [intros _|discriminate].
  rewrite matcher_seq in E.
  apply (@matcher_lit flags_gi fence exact_fence_gi) in E as [E _].
  now apply starts_with_contains.
Qed.

Lemma fence_end_match (pr sf : jsstring) (m : nat * captures) :
  exec_at flags_g re_fence_end pr sf = Some m -> contains fence sf = true.
Proof.
  unfold exec_at, re_fence_end.
  destruct (matcher _ _ _ _) as [z|] eqn:E; [intros _|discriminate].
  rewrite matcher_seq, matcher_rep in E.
  apply rep_some in E as (n & _ & _ & _ & E).
  apply (@matcher_lit flags_g fence
           (@exact_case_sensitive flags_g _ eq_refl)) in E as [E _].
  apply contains_skipn with n. now apply starts_with_contains.
Qed.

Lemma bold_match (pr sf : jsstring) (m : nat * captures) :
  exec_at flags_g re_bold pr sf = Some m -> contains bold_mark sf = true.
Proof.
  unfold exec_at, re_bold.
  destruct (matcher _ _ _ _) as [z|] eqn:E; [intros _|discriminate].
  rewrite matcher_seq in E.
  apply (@matcher_lit flags_g bold_mark
           (@exact_case_sensitive flags_g _ eq_refl)) in E as [E _].
  now apply starts_with_contains.
Qed.

Lemma starts_with_run (c : N) (n : nat) (s : jsstring) :
  1 <= n -> forallb (fun d => N.eqb d c) (firstn n s) = true ->
  n <= length s -> starts_with [c] s = true.
Proof.
  destruct n; [lia|]. destruct s as [|d s]; simpl; [lia|].
  intros _ H _. apply andb_true_iff in H as [H _].
  apply N.eqb_eq in H. subst d. now rewrite N.eqb_refl.
Qed.

Lemma rule_match (pr sf : jsstring) (m : nat * captures) :
  exec_at flags_gm re_rule pr sf = Some m ->
  at_line_start flags_gm pr && starts_with rule_mark sf = true.
Proof.
  unfold exec_at, re_rule.
  destruct (matcher _ _ _ _) as [z|] eqn:E; [intros _|discriminate].
  rewrite matcher_seq, matcher_bol in E. simpl pre in E.
  destruct (at_line_start flags_gm pr) eqn:Hb; [|discriminate].
  rewrite matcher_seq in E.
  apply (@matcher_lit flags_gm (u "--")
           (@exact_case_sensitive flags_gm _ eq_refl)) in E as [E1 E].
  rewrite matcher_seq, matcher_rep in E.
  apply rep_some in E as (n & Hmin & Hlen & Hall & _).
  simpl suf in *.
  apply (starts_with_run HYPHEN) in Hall; [|exact Hmin|exact Hlen].
  destruct sf as [|c1 [|c2 [|c3 sf]]]; simpl in *; try discriminate.
  apply andb_true_iff in E1 as [-> E1].
  apply andb_true_iff in E1 as [-> _].
  now rewrite Hall.
Qed.

Lemma heading_match (pr sf : jsstring) (m : nat * captures) :
  exec_at flags_gm re_heading pr sf = Some m ->
  at_line_start flags_gm pr && starts_with heading_mark sf = true.
Proof.
  unfold exec_at, re_heading.
  destruct (matcher _ _ _ _) as [z|] eqn:E; [intros _|discriminate].
  rewrite matcher_seq, matcher_bol in E. simpl pre in E.
  destruct (at_line_start flags_gm pr) eqn:Hb; [|discriminate].
  rewrite matcher_seq, matcher_rep in E.
  apply rep_some in E as (n & Hmin & Hlen & Hall & _).
  simpl suf in *.
  now apply (starts_with_run HASH) in Hall.
Qed.

(** ** Collapsing line feeds *)

Lemma rep_LF :
  forall sf min pr cs,
    rep (atom_matches flags_g (AChar LF)) min pr sf cs Some =
    if Nat.leb min (leading_LF sf)
    then Some {| pre := rev (firstn (leading_LF sf) sf) ++ pr;
                 suf := skipn (leading_LF sf) sf; caps := cs |}
    else None.
Proof.
  induction sf as [|c sf IH]; intros min pr cs.
  - destruct min; reflexivity.
  - simpl rep. simpl leading_LF.
    destruct (N.eqb c LF) eqn:Hc.
    + rewrite IH.
      destruct (Nat.leb (Nat.pred min) (leading_LF sf)) eqn:Hle.
      * apply Nat.leb_le in Hle.
        assert (Nat.leb min (S (leading_LF sf)) = true) as ->
            by (apply Nat.leb_le; lia).
        simpl. now rewrite <- app_assoc.
      * apply Nat.leb_gt in Hle.
        assert (Nat.leb min (S (leading_LF sf)) = false) as ->
            by (apply Nat.leb_gt; lia).
        destruct min; [lia|reflexivity].
    + destruct min; reflexivity.
Qed.

Lemma newlines_exec (pr sf : jsstring) :
  exec_at flags_g re_newlines pr sf =
  if Nat.leb 3 (leading_LF sf) then Some (leading_LF sf, []) else None.
Proof.
  unfold exec_at, re_newlines. rewrite matcher_rep. simpl pre. simpl suf.
  simpl caps. rewrite rep_LF.
  destruct (Nat.leb 3 (leading_LF sf)); [|reflexivity].
  simpl suf. simpl caps. rewrite length_skipn.
  f_equal. f_equal.
  assert (leading_LF sf <= length sf).
  { clear. induction sf as [|c sf IH]; simpl; [lia|].
    destruct (N.eqb c LF); lia. }
  lia.
Qed.

Lemma leading_LF_le (s : jsstring) : leading_LF s <= length s.
Proof.
  induction s as [|c s IH]; simpl; [lia|]. destruct (N.eqb c LF); lia.
Qed.

Lemma leading_LF_skipn (s : jsstring) :
  leading_LF (skipn (leading_LF s) s) = 0.
Proof.
  induction s as [|c s IH]; simpl; [reflexivity|].
  destruct (N.eqb c LF) eqn:E; simpl; [exact IH|now rewrite E].
Qed.

Lemma starts_with_LF3 (s : jsstring) :
  starts_with [LF; LF; LF] s = Nat.leb 3 (leading_LF s).
Proof.
  destruct s as [|c1 [|c2 [|c3 s]]]; cbn [starts_with leading_LF];
    rewrite ?(N.eqb_sym LF); repeat (destruct (N.eqb _ LF)); reflexivity.
Qed.

(** After the replacement no three line feeds follow one another, and
    the result starts with no more line feeds than the input. *)
Lemma newlines_collapsed :
  forall n sf pr,
    length sf <= n ->
    contains [LF; LF; LF]
      (replace_from flags_g re_newlines [RText [LF; LF]] 0 pr sf) = false
    /\ leading_LF (replace_from flags_g re_newlines [RText [LF; LF]] 0 pr sf)
       <= Nat.min 2 (leading_LF sf).
Proof.
  assert (Hnil : forall pr,
             replace_from flags_g re_newlines [RText [LF; LF]] 0 pr [] = []).
  { intros pr. cbn [replace_from]. rewrite newlines_exec. reflexivity. }
  induction n as [|n IH]; intros sf pr Hn.
  - destruct sf; [|simpl in Hn; lia].
    rewrite Hnil. simpl. auto.
  - destruct sf as [|c sf]; [rewrite Hnil; simpl; auto|].
    cbn [replace_from]. rewrite newlines_exec.
    destruct (Nat.leb 3 (leading_LF (c :: sf))) eqn:H3.
    + apply Nat.leb_le in H3.
      pose proof (leading_LF_le (c :: sf)) as Hle.
      pose proof (leading_LF_skipn (c :: sf)) as Hsk.
      destruct (leading_LF (c :: sf)) as [|l] eqn:El; [lia|].
      rewrite replace_from_skip by (simpl in Hle; lia).
      change (skipn (S l) (c :: sf)) with (skipn l sf) in Hsk.
      destruct (IH (skipn l sf) (rev (firstn l sf) ++ c :: pr)) as [Hc Hl].
      { rewrite length_skipn. simpl in Hn. lia. }
      rewrite Hsk in Hl.
      set (out := replace_from _ _ _ 0 _ (skipn l sf)) in *.
      assert (Hout : leading_LF out = 0) by (simpl in Hl; lia).
      cbn [substitution app].
      split.
      * cbn [contains]. rewrite Hc, !starts_with_LF3.
        cbn [leading_LF]. rewrite !N.eqb_refl, Hout. reflexivity.
      * cbn [leading_LF]. rewrite !N.eqb_refl, Hout. lia.
    + apply Nat.leb_gt in H3.
      destruct (IH sf (c :: pr)) as [Hc Hl]; [simpl in Hn; lia|].
      set (out := replace_from _ _ _ 0 _ sf) in *.
      split.
      * cbn [contains]. rewrite Hc, starts_with_LF3, orb_false_r.
        apply Nat.leb_gt. cbn [leading_LF] in *. destruct (N.eqb c LF); lia.
      * cbn [leading_LF] in *. destruct (N.eqb c LF); lia.
Qed.

Lemma newlines_match (pr sf : jsstring) (m : nat * captures) :
  exec_at flags_g re_newlines pr sf = Some m ->
  contains [LF; LF; LF] sf = true.
Proof.
  rewrite newlines_exec. destruct (Nat.leb 3 _) eqn:E; [|discriminate].
  intros _. apply starts_with_contains. now rewrite starts_with_LF3.
Qed.

(** ** The worked example and idempotence *)

(** C2, as the specification states it, fails: for the example input the
    sanitizer does not return ["bold text\nHeading\n\nline"]. *)
Lemma C2_stated_output_is_not_returned :
  stripMarkdownCodeBlocks example_input
  <> u "bold text" ++ [LF] ++ u "Heading" ++ [LF; LF] ++ u "line".
Proof. vm_compute. discriminate. Qed.

(** C2, amended: for the example input the sanitizer returns
    ["bold text\n\nHeading\n\nline"]; the removed rule leaves its line
    empty, so a blank line separates "bold text" from "Heading". *)
Theorem C2_example_output :
  stripMarkdownCodeBlocks example_input
  = u "bold text" ++ [LF; LF] ++ u "Heading" ++ [LF; LF] ++ u "line".
Proof. vm_compute. reflexivity. Qed.

(** C3, as the specification states it, fails: sanitizing ["****a****"]
    gives ["**a**"], and sanitizing that gives ["a"]. *)
Lemma C3_sanitizer_is_not_idempotent :
  stripMarkdownCodeBlocks (u "****a****") = u "**a**" /\
  stripMarkdownCodeBlocks (stripMarkdownCodeBlocks (u "****a****"))
  <> stripMarkdownCodeBlocks (u "****a****").
Proof. split; vm_compute; [reflexivity|discriminate]. Qed.

Lemma sanitizer_output_collapsed (x : jsstring) :
  contains [LF; LF; LF] (stripMarkdownCodeBlocks x) = false.
Proof.
  unfold stripMarkdownCodeBlocks, replace at 1.
  match goal with
  | |- contains ?p (trim ?t) = false =>
      destruct (contains p (trim t)) eqn:E; [|reflexivity];
      apply contains_trim in E
  end.
  match type of E with
  | contains _ (replace_from _ _ _ 0 [] ?s) = true =>
      destruct (@newlines_collapsed (length s) s [] (le_n _)) as [H _]
  end.
  congruence.
Qed.

Lemma sanitizer_output_trimmed (x : jsstring) :
  trim (stripMarkdownCodeBlocks x) = stripMarkdownCodeBlocks x.
Proof. unfold stripMarkdownCodeBlocks. apply trim_idem. Qed.

(** A text without markers, without three line feeds in a row and
    without surrounding white space is left as it is. *)
Lemma sanitizer_fixed_point (y : jsstring) :
  contains fence y = false ->
  contains bold_mark y = false ->
  some_line_starts_with rule_mark y = false ->
  some_line_starts_with heading_mark y = false ->
  contains [LF; LF; LF] y = false ->
  trim y = y ->
  stripMarkdownCodeBlocks y = y.
Proof.
  intros Hf Hb Hr Hh Hn Ht. unfold stripMarkdownCodeBlocks, replace.
  rewrite (@replace_without_match flags_gi re_fence_start [] y [])
    by (apply (no_match_unanchored _ _ _ fence_start_match), Hf).
  rewrite (@replace_without_match flags_g re_fence_end [] y [])
    by (apply (no_match_unanchored _ _ _ fence_end_match), Hf).
  rewrite (@replace_without_match flags_g re_bold [RGroup 1] y [])
    by (apply (no_match_unanchored _ _ _ bold_match), Hb).
  rewrite (@replace_without_match flags_gm re_rule [] y [])
    by (apply (no_match_anchored _ _ rule_match), Hr).
  rewrite (@replace_without_match flags_gm re_heading [] y [])
    by (apply (no_match_anchored _ _ heading_match), Hh).
  rewrite (@replace_without_match flags_g re_newlines [RText [LF; LF]] y [])
    by (apply (no_match_unanchored _ _ _ newlines_match), Hn).
  exact Ht.
Qed.

(** C3, amended: sanitizing a second time changes nothing whenever the
    sanitized text holds no ["```"], no ["**"], and no line that starts
    with ["---"] or with ["#"]. *)
Theorem C3_idempotent_without_residual_markers (x : jsstring) :
  contains fence (stripMarkdownCodeBlocks x) = false ->
  contains bold_mark (stripMarkdownCodeBlocks x) = false ->
  some_line_starts_with rule_mark (stripMarkdownCodeBlocks x) = false ->
  some_line_starts_with heading_mark (stripMarkdownCodeBlocks x) = false ->
  stripMarkdownCodeBlocks (stripMarkdownCodeBlocks x)
  = stripMarkdownCodeBlocks x.
Proof.
  intros Hf Hb Hr Hh.
  apply sanitizer_fixed_point; auto.
  - apply sanitizer_output_collapsed.
  - apply sanitizer_output_trimmed.
Qed.

Lemma C3_idempotent_without_residual_markers_witness :
  let y := stripMarkdownCodeBlocks example_input in
  contains fence y = false
  /\ contains bold_mark y = false
  /\ some_line_starts_with rule_mark y = false
  /\ some_line_starts_with heading_mark y = false
  /\ stripMarkdownCodeBlocks y = y.
Proof.
  intros y.
  assert (Hf : contains fence y = false) by (vm_compute; reflexivity).
  assert (Hb : contains bold_mark y = false) by (vm_compute; reflexivity).
  assert (Hr : some_line_starts_with rule_mark y = false)
    by (vm_compute; reflexivity).
  assert (Hh : some_line_starts_with heading_mark y = false)
    by (vm_compute; reflexivity).
  repeat (split; [assumption|]).
  exact (C3_idempotent_without_residual_markers example_input Hf Hb Hr Hh).
Defined.

(* ================================================================= *)
(** * Properties of the calls *)

Section CallProperties.

Variable R : Runtime.
Variable C : Type.

Implicit Types (w : World R C) (onChunk : option (Callback C)).

Lemma hand_app (f : Callback C) (a b : list StreamEvent) (c : C) :
  hand f (a ++ b) c
  = match hand f a c with
    | (None, c') => hand f b c'
    | (Some e, c') => (Some e, c')
    end.
Proof.
  revert c. induction a as [|ev a IH]; intros c; cbn [app hand].
  - reflexivity.
  - destruct (f ev c) as [[e|] c']; [reflexivity|apply IH].
Qed.

Lemma thrown_app onChunk (a b : list StreamEvent) (c : C) :
  thrown onChunk (a ++ b) c
  = match thrown onChunk a c with
    | Some e => Some e
    | None => thrown onChunk b (deliver onChunk a c)
    end.
Proof.
  destruct onChunk as [f|]; cbn [thrown deliver]; [|reflexivity].
  rewrite hand_app. now destruct (hand f a c) as [[e|] c'].
Qed.

Lemma deliver_app onChunk (a b : list StreamEvent) (c : C) :
  thrown onChunk a c = None ->
  deliver onChunk (a ++ b) c = deliver onChunk b (deliver onChunk a c).
Proof.
  destruct onChunk as [f|]; cbn [thrown deliver]; [|reflexivity].
  rewrite hand_app. destruct (hand f a c) as [[e|] c']; cbn [fst snd];
    [discriminate|reflexivity].
Qed.

Lemma deliver_until onChunk (a b : list StreamEvent) (c : C) (e : Error) :
  thrown onChunk a c = Some e ->
  deliver onChunk (a ++ b) c = deliver onChunk a c.
Proof.
  destruct onChunk as [f|]; cbn [thrown deliver]; [|reflexivity].
  rewrite hand_app. destruct (hand f a c) as [[e'|] c']; cbn [fst snd];
    [reflexivity|discriminate].
Qed.

(** A callback that never throws does not throw on a list of events. *)
Lemma returns_normally_thrown onChunk :
  returns_normally onChunk ->
  forall evs c, thrown onChunk evs c = None.
Proof.
  intros H evs. induction evs as [|ev evs IH]; intros c.
  - now destruct onChunk.
  - change (ev :: evs) with ([ev] ++ evs). rewrite thrown_app, H. apply IH.
Qed.

Lemma call_onChunk_run onChunk (ev : StreamEvent) w :
  call_onChunk onChunk ev w =
  (match thrown onChunk [ev] (caller w) with
   | Some e => inl e
   | None => inr tt
   end,
   {| TheCleanCode := TheCleanCode w; env := env w;
      console := console w; calls := calls w;
      caller := deliver onChunk [ev] (caller w) |}).
Proof.
  destruct w as [cell e logs cs c], onChunk as [f|];
    cbn [call_onChunk thrown deliver hand caller TheCleanCode env console
         calls]; [|reflexivity].
  now destruct (f ev c) as [[err|] c'].
Qed.

(** The text listener, run over the text events of a stream: it hands
    the numbered chunk events to the callback, keeps the last snapshot
    and counts the events, and only adds lines to the console besides;
    it stops at the first event the callback throws on. *)
Lemma emit_texts_run onChunk :
  forall evs vars w,
  exists logs,
    emit_texts onChunk vars evs w =
    (match thrown onChunk (chunk_events (snd vars) evs) (caller w) with
     | Some e => inl e
     | None => inr (snd (last evs (@pair jsstring jsstring [] (fst vars))),
                    snd vars + length evs)
     end,
     {| TheCleanCode := TheCleanCode w; env := env w;
        console := console w ++ logs; calls := calls w;
        caller := deliver onChunk (chunk_events (snd vars) evs) (caller w) |}).
Proof.
  induction evs as [|[d s] evs IH]; intros [full n] w.
  - exists []. cbn [emit_texts chunk_events fst snd last length].
    unfold ret. rewrite app_nil_r, Nat.add_0_r.
    destruct w, onChunk; reflexivity.
  - cbn [emit_texts on_text bind snd fst chunk_events].
    assert (Hlast : snd (last ((d, s) :: evs)
                              (@pair jsstring jsstring [] full))
                    = snd (last evs (@pair jsstring jsstring [] s))).
    { destruct evs as [|p evs]; [reflexivity|]. cbn [last]. clear.
      revert p. induction evs as [|q evs IHe]; intros p; [reflexivity|].
      apply IHe. }
    change (EvChunk d s (S n) :: chunk_events (S n) evs)
      with ([EvChunk d s (S n)] ++ chunk_events (S n) evs).
    rewrite thrown_app.
    unfold bind. rewrite call_onChunk_run.
    destruct (thrown onChunk [EvChunk d s (S n)] (caller w)) as [e|] eqn:Et.
    + exists []. rewrite (deliver_until _ _ _ _ e Et), app_nil_r.
      reflexivity.
    + rewrite (deliver_app _ _ _ _ Et).
      unfold when, console_log, ret.
      destruct (Nat.eqb (Nat.modulo (S n) 50) 0).
      * match goal with
        | |- context [emit_texts onChunk ?v evs ?w2] =>
            destruct (IH v w2) as [logs Hl]; rewrite Hl
        end.
        exists (LStreamedChunks (S n) :: logs).
        cbn [fst snd TheCleanCode env console calls caller].
        rewrite <- app_assoc, Hlast. cbn [app length].
        now rewrite Nat.add_succ_r.
      * match goal with
        | |- context [emit_texts onChunk ?v evs ?w2] =>
            destruct (IH v w2) as [logs Hl]; rewrite Hl
        end.
        exists logs.
        cbn [fst snd TheCleanCode env console calls caller].
        rewrite Hlast. cbn [app length].
        now rewrite Nat.add_succ_r.
Qed.

Ltac run_call :=
  unfold generateGame, generateGameStreaming, chatWithCodeAssistant,
    finalMessage, try_catch, bind, when, console_log, now,
    get_TheCleanCode, set_TheCleanCode, anthropic_messages_create,
    anthropic_messages_stream, throw, ret;
  cbn [TheCleanCode env console calls caller fst snd].

Ltac red_world :=
  cbn [TheCleanCode env console calls caller fst snd] in *.

Ltac tidy_console :=
  repeat rewrite <- app_assoc; cbn [app].

(** A call of [generateGame] that the provider answers with a message. *)
Lemma generateGame_answered description library w (m : Message) :
  answer_of_create (generate_request R description library) w = inr m ->
  exists logs e',
    generateGame description library w =
    (inr (stripMarkdownCodeBlocks (text_of_blocks [] (content m))),
     {| TheCleanCode :=
          stripMarkdownCodeBlocks (text_of_blocks [] (content m));
        env := e';
        console := console w ++ logs;
        calls := calls w
                 ++ [MessagesCreate (generate_request R description library)];
        caller := caller w |})
    /\ (In LWarnIncomplete logs <->
        jseqb (stop_reason m) (u "max_tokens") = true).
Proof.
  unfold answer_of_create, generate_request. intros H. run_call.
  destruct (performance_now R (env w)) as [t1 e1]. red_world.
  destruct (messages_create R _ e1) as [r e2]. red_world. subst r.
  destruct (performance_now R e2) as [t2 e3]. red_world.
  destruct (truthy_count (cache_creation_input_tokens (usage m)));
    destruct (truthy_count (cache_read_input_tokens (usage m)));
    destruct (jseqb (stop_reason m) (u "max_tokens"));
    red_world; tidy_console; eexists; exists e3;
      (split; [reflexivity|]);
      cbn [In]; split; intros Hin; try discriminate; intuition discriminate.
Qed.

(** A call of [generateGame] in which the provider fails. *)
Lemma generateGame_failed description library w (err : Error) :
  answer_of_create (generate_request R description library) w = inl err ->
  exists logs e',
    generateGame description library w =
    (inl err,
     {| TheCleanCode := TheCleanCode w;
        env := e';
        console := console w ++ logs;
        calls := calls w
                 ++ [MessagesCreate (generate_request R description library)];
        caller := caller w |}).
Proof.
  unfold answer_of_create, generate_request. intros H. run_call.
  destruct (performance_now R (env w)) as [t1 e1]. red_world.
  destruct (messages_create R _ e1) as [r e2]. red_world. subst r.
  red_world. tidy_console. eexists. exists e2. reflexivity.
Qed.

(** A call of [chatWithCodeAssistant]: one request, built from the
    template and the cell; the cell is left as it is. *)
Lemma chat_run userMessage gameCode library w :
  exists logs e',
    chatWithCodeAssistant userMessage gameCode library w =
    (match answer_of_create
             (chat_request R userMessage (TheCleanCode w)) w with
     | inr m => inr (trim (text_of_blocks [] (content m)))
     | inl err => inl err
     end,
     {| TheCleanCode := TheCleanCode w;
        env := e';
        console := console w ++ logs;
        calls := calls w
                 ++ [MessagesCreate
                       (chat_request R userMessage (TheCleanCode w))];
        caller := caller w |}).
Proof.
  unfold answer_of_create, chat_request. run_call.
  destruct (performance_now R (env w)) as [t1 e1]. red_world.
  destruct (messages_create R _ e1) as [[err|m] e2]; red_world.
  - tidy_console. eexists. exists e2. reflexivity.
  - destruct (performance_now R e2) as [t2 e3]. red_world.
    tidy_console. eexists. exists e3. reflexivity.
Qed.

Ltac split_attempt :=
  match goal with
  | Et : thrown ?o ?a ?c = None |- context [thrown ?o (?a ++ ?b) ?c] =>
      rewrite (thrown_app o a b c), (deliver_app o a b c Et)
  end.

(** A call of [generateGameStreaming], whatever its callback does.  The
    callback is handed the chunk events and, when the stream ends with a
    final message, the complete event.  An error thrown by the callback
    on one of them, or else the error of the stream, reaches the [catch]
    block: the callback is handed the error event, the error is thrown
    again (unless the callback throws on the error event) and the cell is
    left as it was. *)
Lemma generateGameStreaming_run description library onChunk w :
  let run := run_of_stream (stream_request R description library) w in
  let cleanCode := stripMarkdownCodeBlocks (last_snapshot (texts run)) in
  exists logs e' totalTime,
    let attempt :=
      chunk_events 0 (texts run)
      ++ match final run with
         | inr m => [EvComplete cleanCode totalTime (length (texts run))
                                (output_tokens (usage m))]
         | inl _ => []
         end in
    let c1 := deliver onChunk attempt (caller w) in
    generateGameStreaming description library onChunk w =
    match caught (thrown onChunk attempt (caller w)) (final run) with
    | None =>
        (inr cleanCode,
         {| TheCleanCode := cleanCode;
            env := e';
            console := console w ++ logs;
            calls := calls w
                     ++ [MessagesStream
                           (stream_request R description library)];
            caller := c1 |})
    | Some e =>
        (match thrown onChunk [EvError (message e)] c1 with
         | Some e2 => inl e2
         | None => inl e
         end,
         {| TheCleanCode := TheCleanCode w;
            env := e';
            console := console w ++ logs;
            calls := calls w
                     ++ [MessagesStream
                           (stream_request R description library)];
            caller := deliver onChunk [EvError (message e)] c1 |})
    end
    /\ (forall m, final run = inr m ->
                  jseqb (stop_reason m) (u "max_tokens") = true ->
                  caught (thrown onChunk attempt (caller w)) (final run)
                  = None ->
                  In LStreamWarnIncomplete logs).
Proof.
  unfold run_of_stream, stream_request. run_call.
  destruct (performance_now R (env w)) as [t1 e1]. red_world.
  destruct (messages_stream R _ e1) as [run e2]. red_world.
  match goal with
  | |- context [emit_texts onChunk ?v (texts run) ?w1] =>
      destruct (emit_texts_run onChunk (texts run) v w1) as [logs Hl];
      rewrite Hl
  end.
  red_world. cbn [Nat.add].
  change (snd (last (texts run) (@pair jsstring jsstring [] [])))
    with (last_snapshot (texts run)).
  destruct (performance_now R e2) as [t2 e3] eqn:Ht2.
  destruct (thrown onChunk (chunk_events 0 (texts run)) (caller w))
    as [e|] eqn:Et.
  - (* the callback throws on a chunk event *)
    rewrite call_onChunk_run. red_world.
    eexists _, e2, (seconds R t1 t2). cbn zeta.
    match goal with
    | |- context [thrown onChunk (?a ++ ?b) ?c] =>
        rewrite (thrown_app onChunk a b c), (deliver_until onChunk a b c e Et)
    end.
    rewrite Et. cbn [caught]. split.
    + destruct (thrown onChunk [EvError (message e)] _); red_world;
        tidy_console; reflexivity.
    + intros m _ _ H. discriminate.
  - destruct (final run) as [err|m] eqn:Ef.
    + (* the stream fails *)
      rewrite call_onChunk_run. red_world.
      eexists _, e2, (seconds R t1 t2). cbn zeta.
      rewrite app_nil_r, Et. cbn [caught]. split.
      * destruct (thrown onChunk [EvError (message err)] _); red_world;
          tidy_console; reflexivity.
      * intros m H. discriminate.
    + (* the stream ends with a final message *)
      red_world. rewrite Ht2. red_world.
      rewrite call_onChunk_run. red_world.
      match goal with
      | |- context [thrown onChunk [EvComplete ?a ?b ?c ?d] ?st] =>
          destruct (thrown onChunk [EvComplete a b c d] st) as [e|] eqn:Ec
      end.
      * rewrite call_onChunk_run. red_world.
        eexists _, e3, (seconds R t1 t2). cbn zeta.
        split_attempt. rewrite Et, Ec.
        cbn [caught]. split.
        -- destruct (thrown onChunk [EvError (message e)] _); red_world;
             tidy_console; reflexivity.
        -- intros m' _ _ H. discriminate.
      * destruct (jseqb (stop_reason m) (u "max_tokens")) eqn:Es; red_world;
          tidy_console; eexists _, e3, (seconds R t1 t2); cbn zeta;
          split_attempt; rewrite Et, Ec;
          cbn [caught]; (split; [reflexivity|]);
          intros m' Hm' Hs _; injection Hm' as <-; try congruence.
        cbn [In]. do 3 right. apply in_or_app. right. cbn [In]. intuition.
Qed.

(** A call of [generateGameStreaming] whose stream ends with a final
    message, the callback returning normally. *)
Lemma generateGameStreaming_answered description library onChunk w
      (m : Message) :
  returns_normally onChunk ->
  final (run_of_stream (stream_request R description library) w) = inr m ->
  let evs := texts (run_of_stream (stream_request R description library) w) in
  let cleanCode := stripMarkdownCodeBlocks (last_snapshot evs) in
  exists logs e' totalTime,
    generateGameStreaming description library onChunk w =
    (inr cleanCode,
     {| TheCleanCode := cleanCode;
        env := e';
        console := console w ++ logs;
        calls := calls w
                 ++ [MessagesStream (stream_request R description library)];
        caller :=
          deliver onChunk
            (chunk_events 0 evs
             ++ [EvComplete cleanCode totalTime (length evs)
                            (output_tokens (usage m))])
            (caller w) |})
    /\ (jseqb (stop_reason m) (u "max_tokens") = true ->
        In LStreamWarnIncomplete logs).
Proof.
  intros Hn H evs cleanCode.
  destruct (generateGameStreaming_run description library onChunk w)
    as (logs & e' & totalTime & Hrun & Hwarn).
  cbn zeta in Hrun, Hwarn. rewrite H in Hrun, Hwarn.
  rewrite (returns_normally_thrown _ Hn) in Hrun, Hwarn.
  cbn [caught] in Hrun, Hwarn.
  exists logs, e', totalTime. split; [exact Hrun|].
  intros Hs. exact (Hwarn m eq_refl Hs eq_refl).
Qed.

(** A call of [generateGameStreaming] whose stream fails, the callback
    returning normally. *)
Lemma generateGameStreaming_failed description library onChunk w
      (err : Error) :
  returns_normally onChunk ->
  final (run_of_stream (stream_request R description library) w) = inl err ->
  let evs := texts (run_of_stream (stream_request R description library) w) in
  exists logs e',
    generateGameStreaming description library onChunk w =
    (inl err,
     {| TheCleanCode := TheCleanCode w;
        env := e';
        console := console w ++ logs;
        calls := calls w
                 ++ [MessagesStream (stream_request R description library)];
        caller :=
          deliver onChunk
            (chunk_events 0 evs ++ [EvError (message err)]) (caller w) |}).
Proof.
  intros Hn H evs.
  destruct (generateGameStreaming_run description library onChunk w)
    as (logs & e' & totalTime & Hrun & _).
  cbn zeta in Hrun. rewrite H in Hrun.
  rewrite !(returns_normally_thrown _ Hn) in Hrun.
  cbn [caught] in Hrun. rewrite app_nil_r in Hrun.
  rewrite (returns_normally_thrown _ Hn) in Hrun.
  exists logs, e'. rewrite Hrun.
  now rewrite (deliver_app _ _ _ _ (returns_normally_thrown _ Hn _ _)).
Qed.

End CallProperties.

(** ** Chunk events *)

Lemma deliver_record (evs c : list StreamEvent) :
  deliver (Some record_event) evs c = c ++ evs.
Proof.
  simpl. revert c. induction evs as [|ev evs IH]; intros c; simpl.
  - now rewrite app_nil_r.
  - rewrite IH. unfold record_event. now rewrite <- app_assoc.
Qed.

Lemma record_event_returns : returns_normally (Some record_event).
Proof. intros ev c. reflexivity. Qed.


Lemma chunk_events_are_chunks (evs : list (jsstring * jsstring)) (n : nat) :
  forallb is_chunk (chunk_events n evs) = true.
Proof.
  revert n. induction evs as [|[d s] evs IH]; intros n; simpl; auto.
Qed.







Lemma filter_chunks (p : StreamEvent -> bool) (chunks : list StreamEvent) :
  (forall ev, is_chunk ev = true -> p ev = false) ->
  forallb is_chunk chunks = true -> filter p chunks = [].
Proof.
  intros Hp. induction chunks as [|ev chunks IH]; simpl; [auto|].
  intros H. apply andb_true_iff in H as [H1 H2].
  now rewrite (Hp _ H1), IH.
Qed.

(* ================================================================= *)
(** * The streaming call *)




(** C4: a streaming call whose stream fails hands its callback, after the
    chunk events received so far, exactly one error event, which carries
    the message of the failure; it hands it no complete event; and it
    throws the failure to its caller.  The cell is not written. *)
Theorem C4_failure_is_signalled_and_thrown
        (R : Runtime) (description : jsstring) (library : option jsstring)
        (w : World R (list StreamEvent)) (err : Error) :
  let run := run_of_stream (stream_request R description library) w in
  final run = inl err ->
  exists handed w',
    generateGameStreaming description library (Some record_event) w
    = (inl err, w')
    /\ caller w' = caller w ++ handed
    /\ handed = chunk_events 0 (texts run) ++ [EvError (message err)]
    /\ filter is_error handed = [EvError (message err)]
    /\ filter is_complete handed = []
    /\ TheCleanCode w' = TheCleanCode w.
Proof.
  intros run Hfinal.
  destruct (generateGameStreaming_failed R _ description library
              (Some record_event) w err record_event_returns Hfinal)
    as (logs & e' & Hrun).
  fold run in Hrun.
  eexists _, _. split; [exact Hrun|]. cbn [caller TheCleanCode].
  rewrite deliver_record.
  repeat split; rewrite filter_app.
  - rewrite (filter_chunks is_error); [reflexivity| |].
    + now intros [].
    + apply chunk_events_are_chunks.
  - rewrite (filter_chunks is_complete); [reflexivity| |].
    + now intros [].
    + apply chunk_events_are_chunks.
Qed.

Lemma C4_failure_is_signalled_and_thrown_witness :
  let w := @initial_world demo_failing (list StreamEvent) tt [] in
  let run :=
    run_of_stream (stream_request demo_failing (u "make pong") None) w in
  let err := {| message := u "overloaded" |} in
  final run = inl err
  /\ exists handed w',
    generateGameStreaming (u "make pong") None (Some record_event) w
    = (inl err, w')
    /\ caller w' = caller w ++ handed
    /\ handed = chunk_events 0 (texts run) ++ [EvError (message err)]
    /\ filter is_error handed = [EvError (message err)]
    /\ filter is_complete handed = []
    /\ TheCleanCode w' = TheCleanCode w.
Proof.
  intros w run err. split; [reflexivity|].
  apply (C4_failure_is_signalled_and_thrown demo_failing (u "make pong")
           None w err). reflexivity.
Defined.

(* ================================================================= *)
(** * The cell [TheCleanCode] and the prompts *)

Section CellProperties.

Variable R : Runtime.
Variable C : Type.

Implicit Types (w : World R C) (onChunk : option (Callback C)).

Lemma generateGame_calls description library w :
  calls (snd (generateGame description library w))
  = calls w ++ [MessagesCreate (generate_request R description library)].
Proof.
  destruct (answer_of_create (generate_request R description library) w)
    as [err|m] eqn:E.
  - destruct (generateGame_failed R C description library w err E)
      as (logs & e' & ->). reflexivity.
  - destruct (generateGame_answered R C description library w m E)
      as (logs & e' & -> & _). reflexivity.
Qed.

Lemma generateGameStreaming_calls description library onChunk w :
  calls (snd (generateGameStreaming description library onChunk w))
  = calls w ++ [MessagesStream (stream_request R description library)].
Proof.
  destruct (generateGameStreaming_run R C description library onChunk w)
    as (logs & e' & t & Hrun & _).
  cbn zeta in Hrun. rewrite Hrun. now destruct (caught _ _).
Qed.

(** A generation that returns code has stored that code in the cell. *)
Lemma generateGame_stores description library w (c : jsstring) w' :
  generateGame description library w = (inr c, w') -> TheCleanCode w' = c.
Proof.
  destruct (answer_of_create (generate_request R description library) w)
    as [err|m] eqn:E.
  - destruct (generateGame_failed R C description library w err E)
      as (logs & e' & ->). discriminate.
  - destruct (generateGame_answered R C description library w m E)
      as (logs & e' & -> & _). intros H. injection H as <- <-. reflexivity.
Qed.

Lemma generateGameStreaming_stores description library onChunk w
      (c : jsstring) w' :
  generateGameStreaming description library onChunk w = (inr c, w') ->
  TheCleanCode w' = c.
Proof.
  destruct (generateGameStreaming_run R C description library onChunk w)
    as (logs & e' & t & Hrun & _).
  cbn zeta in Hrun. rewrite Hrun. destruct (caught _ _) as [e|].
  - now destruct (thrown onChunk [EvError (message e)] _).
  - intros H. injection H as <- <-. reflexivity.
Qed.

(** Whatever a call does, the cell afterwards holds what it held before
    or an output of the sanitizer. *)
Lemma call_step_cell w w' :
  call_step w w' ->
  TheCleanCode w' = TheCleanCode w
  \/ exists raw, TheCleanCode w' = stripMarkdownCodeBlocks raw.
Proof.
  intros [description library w0|description library onChunk w0
          |userMessage gameCode library w0].
  - destruct (answer_of_create (generate_request R description library) w0)
      as [err|m] eqn:E.
    + destruct (generateGame_failed R C description library w0 err E)
        as (logs & e' & ->). now left.
    + destruct (generateGame_answered R C description library w0 m E)
        as (logs & e' & -> & _). right. eexists. reflexivity.
  - destruct (generateGameStreaming_run R C description library onChunk w0)
      as (logs & e' & t & Hrun & _).
    cbn zeta in Hrun. rewrite Hrun. destruct (caught _ _) as [e|].
    + now left.
    + right. eexists. reflexivity.
  - destruct (chat_run R C userMessage gameCode library w0)
      as (logs & e' & ->). now left.
Qed.

Lemma contains_self (p : jsstring) : contains p p = true.
Proof.
  apply starts_with_contains.
  induction p as [|c p IH]; simpl; [reflexivity|].
  now rewrite N.eqb_refl.
Qed.

End CellProperties.

(** C5: after a [generateGame] or [generateGameStreaming] call that
    returned the code [c], the next [chatWithCodeAssistant] call sends the
    provider the assistant template followed by [c] as its system prompt,
    so that prompt contains [c]. *)
Theorem C5_chat_prompt_holds_generated_code
        (R : Runtime) (C : Type) (description : jsstring)
        (library : option jsstring) (onChunk : option (Callback C))
        (w w' : World R C) (c : jsstring)
        (userMessage : jsstring) (gameCode chatLibrary : option jsstring) :
  generateGame description library w = (inr c, w')
  \/ generateGameStreaming description library onChunk w = (inr c, w') ->
  exists rq,
    calls (snd (chatWithCodeAssistant userMessage gameCode chatLibrary w'))
    = calls w' ++ [MessagesCreate rq]
    /\ system_text (system rq) = AIchatbotPrompt R ++ c
    /\ contains c (system_text (system rq)) = true.
Proof.
  intros H.
  assert (Hc : TheCleanCode w' = c).
  { destruct H as [H|H].
    - exact (generateGame_stores R C _ _ _ _ _ H).
    - exact (generateGameStreaming_stores R C _ _ _ _ _ _ H). }
  destruct (chat_run R C userMessage gameCode chatLibrary w')
    as (logs & e' & ->).
  rewrite Hc. exists (chat_request R userMessage c).
  cbn [snd calls chat_request system system_text map sys_text concat].
  rewrite app_nil_r. repeat split.
  apply contains_app_r, contains_self.
Qed.

Lemma C5_chat_prompt_holds_generated_code_witness :
  let w := @initial_world demo_ok unit tt tt in
  let w' := snd (generateGame (u "make pong") (Some (u "p5js")) w) in
  generateGame (u "make pong") (Some (u "p5js")) w
  = (inr (u "let x = 1;"), w')
  /\ exists rq,
    calls (snd (chatWithCodeAssistant (u "why?") None None w'))
    = calls w' ++ [MessagesCreate rq]
    /\ system_text (system rq) = AIchatbotPrompt demo_ok ++ u "let x = 1;"
    /\ contains (u "let x = 1;") (system_text (system rq)) = true.
Proof.
  intros w w'.
  assert (H : generateGame (u "make pong") (Some (u "p5js")) w
              = (inr (u "let x = 1;"), w')) by (vm_compute; reflexivity).
  split; [exact H|].
  exact (C5_chat_prompt_holds_generated_code demo_ok unit (u "make pong")
           (Some (u "p5js")) None w w' (u "let x = 1;") (u "why?") None None
           (or_introl H)).
Defined.

(* ================================================================= *)
(** * Truncated completions *)

(** C6, as the specification states it, fails in its last part: no
    truncation flag is attached to the result.  Nothing read off the
    returned code, or off the returned code and the events handed to the
    callback, tells a truncated completion from a complete one. *)
Lemma C6_result_has_no_truncation_flag :
  ~ (exists flag : jsstring -> bool,
       forall (R : Runtime) (w : World R unit) (m : Message)
              (c : jsstring) (w' : World R unit),
         answer_of_create (generate_request R (u "make pong") None) w
         = inr m ->
         generateGame (u "make pong") None w = (inr c, w') ->
         flag c = truncated m)
  /\ ~ (exists flag : jsstring -> list StreamEvent -> bool,
          forall (R : Runtime) (w : World R (list StreamEvent))
                 (m : Message) (c : jsstring)
                 (w' : World R (list StreamEvent)),
            final (run_of_stream (stream_request R (u "make pong") None) w)
            = inr m ->
            generateGameStreaming (u "make pong") None (Some record_event) w
            = (inr c, w') ->
            flag c (caller w') = truncated m).
Proof.
  split.
  - intros [flag H].
    set (w1 := @initial_world demo_ok unit tt tt).
    set (w2 := @initial_world demo_truncated unit tt tt).
    assert (E1 : generateGame (u "make pong") None w1
                 = (inr (u "let x = 1;"),
                    snd (generateGame (u "make pong") None w1)))
      by (vm_compute; reflexivity).
    assert (E2 : generateGame (u "make pong") None w2
                 = (inr (u "let x = 1;"),
                    snd (generateGame (u "make pong") None w2)))
      by (vm_compute; reflexivity).
    pose proof (H demo_ok w1 _ _ _ eq_refl E1) as H1.
    pose proof (H demo_truncated w2 _ _ _ eq_refl E2) as H2.
    vm_compute in H1, H2. congruence.
  - intros [flag H].
    set (w1 := @initial_world demo_ok (list StreamEvent) tt []).
    set (w2 := @initial_world demo_truncated (list StreamEvent) tt []).
    set (run1 := generateGameStreaming (u "make pong") None
                   (Some record_event) w1).
    set (run2 := generateGameStreaming (u "make pong") None
                   (Some record_event) w2).
    assert (E1 : run1 = (inr (u "let x = 1;"), snd run1))
      by (vm_compute; reflexivity).
    assert (E2 : run2 = (inr (u "let x = 1;"), snd run2))
      by (vm_compute; reflexivity).
    assert (E : caller (snd run1) = caller (snd run2))
      by (vm_compute; reflexivity).
    pose proof (H demo_ok w1 _ _ _ eq_refl E1) as H1.
    pose proof (H demo_truncated w2 _ _ _ eq_refl E2) as H2.
    rewrite E in H1. rewrite H1 in H2. vm_compute in H2. discriminate.
Qed.

(** C6, amended: a completion that stopped at the output-length limit is
    a success.  [generateGame] returns the sanitized text and stores it in
    the cell; [generateGameStreaming] also hands the complete event to
    the callback after the chunk events.  Returned code, events and cell
    are what they are for any other stop reason; truncation shows only as
    a warning on the console.  The callback is one that returns normally:
    an error it throws makes the streaming call fail whatever the stop
    reason is. *)
Theorem C6_truncation_is_success_with_warning
        (R : Runtime) (C : Type) (description : jsstring)
        (library : option jsstring) (onChunk : option (Callback C))
        (w : World R C) (m : Message) :
  truncated m = true ->
  (answer_of_create (generate_request R description library) w = inr m ->
   exists w',
     generateGame description library w
     = (inr (stripMarkdownCodeBlocks (text_of_blocks [] (content m))), w')
     /\ TheCleanCode w'
        = stripMarkdownCodeBlocks (text_of_blocks [] (content m))
     /\ caller w' = caller w
     /\ In LWarnIncomplete (console w'))
  /\
  (returns_normally onChunk ->
   final (run_of_stream (stream_request R description library) w) = inr m ->
   let evs :=
     texts (run_of_stream (stream_request R description library) w) in
   exists w' totalTime,
     generateGameStreaming description library onChunk w
     = (inr (stripMarkdownCodeBlocks (last_snapshot evs)), w')
     /\ TheCleanCode w' = stripMarkdownCodeBlocks (last_snapshot evs)
     /\ caller w'
        = deliver onChunk
            (chunk_events 0 evs
             ++ [EvComplete (stripMarkdownCodeBlocks (last_snapshot evs))
                            totalTime (length evs)
                            (output_tokens (usage m))])
            (caller w)
     /\ In LStreamWarnIncomplete (console w')).
Proof.
  unfold truncated. intros Ht. split; [intros H|intros Hn H].
  - destruct (generateGame_answered R C description library w m H)
      as (logs & e' & Hrun & Hwarn).
    eexists. split; [exact Hrun|]. cbn [TheCleanCode caller console].
    repeat split. apply in_or_app. right. now apply Hwarn.
  - destruct (generateGameStreaming_answered R C description library
                onChunk w m Hn H) as (logs & e' & totalTime & Hrun & Hwarn).
    eexists _, totalTime. split; [exact Hrun|].
    cbn [TheCleanCode caller console].
    repeat split. apply in_or_app. right. now apply Hwarn.
Qed.

Lemma C6_truncation_is_success_with_warning_witness :
  let w := @initial_world demo_truncated (list StreamEvent) tt [] in
  let m := scripted_message
             ((u "```js" ++ [LF] ++ u "let x")
              ++ (u " = 1;" ++ [LF] ++ u "```"))
             (u "max_tokens") in
  truncated m = true
  /\ answer_of_create (generate_request demo_truncated (u "make pong") None) w
     = inr m
  /\ final (run_of_stream
              (stream_request demo_truncated (u "make pong") None) w)
     = inr m
  /\ returns_normally (Some record_event)
  /\ (exists w',
        generateGame (u "make pong") None w
        = (inr (stripMarkdownCodeBlocks (text_of_blocks [] (content m))), w')
        /\ In LWarnIncomplete (console w'))
  /\ (exists w' : World demo_truncated (list StreamEvent),
        TheCleanCode w' = u "let x = 1;"
        /\ In LStreamWarnIncomplete (console w')).
Proof.
  intros w m.
  destruct (C6_truncation_is_success_with_warning demo_truncated
              (list StreamEvent) (u "make pong") None (Some record_event)
              w m eq_refl) as [H1 H2].
  destruct (H1 eq_refl) as (w1 & Hrun1 & _ & _ & Hin1).
  destruct (H2 record_event_returns eq_refl)
    as (w2 & t & _ & Hcell2 & _ & Hin2).
  repeat split; try reflexivity.
  - exists w1. split; [exact Hrun1|exact Hin1].
  - exists w2. split; [|exact Hin2].
    rewrite Hcell2. vm_compute. reflexivity.
Defined.

(* ================================================================= *)
(** * The choice of the system prompt *)

(** C7: [generateGame] and [generateGameStreaming] choose the system
    prompt in the same way: for every library value both send the same
    prompt text, and for every value other than ['phaser'] (an absent one
    included) that text is the p5js prompt. *)
Theorem C7_same_prompt_on_both_paths
        (R : Runtime) (C : Type) (description : jsstring)
        (library : option jsstring) (onChunk : option (Callback C))
        (w : World R C) :
  exists c1 c2,
    calls (snd (generateGame description library w)) = calls w ++ [c1]
    /\ calls (snd (generateGameStreaming description library onChunk w))
       = calls w ++ [c2]
    /\ is_stream_call c1 = false
    /\ is_stream_call c2 = true
    /\ system_text (system (request_of c1))
       = system_text (system (request_of c2))
    /\ (library <> Some (u "phaser") ->
        system_text (system (request_of c1)) = p5jsPrompt R
        /\ system_text (system (request_of c2)) = p5jsPrompt R).
Proof.
  exists (MessagesCreate (generate_request R description library)),
         (MessagesStream (stream_request R description library)).
  split; [apply generateGame_calls|].
  split; [apply generateGameStreaming_calls|].
  cbn [is_stream_call request_of generate_request stream_request system
       system_text map sys_text concat].
  rewrite app_nil_r. repeat split; unfold select_prompt;
    (destruct (jseqb (default_arg library (u "phaser"))
                     (u "phaser")) eqn:E0; clear E0);
    destruct (jseqb (default_arg library (u "p5js")) (u "phaser")) eqn:E;
    try reflexivity;
    apply jseqb_eq in E; destruct library as [l|]; simpl in E;
      try discriminate; subst l; now contradiction H.
Qed.

Lemma C7_same_prompt_on_both_paths_witness :
  let w := @initial_world demo_ok unit tt tt in
  Some (u "threejs") <> Some (u "phaser")
  /\ exists c1 c2,
    calls (snd (generateGame (u "make pong") (Some (u "threejs")) w))
    = calls w ++ [c1]
    /\ calls (snd (generateGameStreaming (u "make pong")
                     (Some (u "threejs")) None w))
       = calls w ++ [c2]
    /\ system_text (system (request_of c1)) = p5jsPrompt demo_ok
    /\ system_text (system (request_of c2)) = p5jsPrompt demo_ok.
Proof.
  intros w.
  assert (Hne : Some (u "threejs") <> Some (u "phaser")) by discriminate.
  split; [exact Hne|].
  destruct (C7_same_prompt_on_both_paths demo_ok unit (u "make pong")
              (Some (u "threejs")) None w)
    as (c1 & c2 & H1 & H2 & _ & _ & _ & H).
  destruct (H Hne) as [Hp1 Hp2].
  exists c1, c2. repeat split; assumption.
Defined.

(* ================================================================= *)
(** * The code assistant *)

(** C9: [chatWithCodeAssistant] does not use its [gameCode] and [library]
    arguments.  Two calls with the same user message, run with the same
    cell content against the same provider state, send the same request
    (template followed by the cell, then the user message) and end alike,
    whatever those two arguments are; and a call leaves the cell as it
    was. *)
Theorem C9_chat_ignores_gameCode_and_library
        (R : Runtime) (C : Type) (userMessage : jsstring)
        (gameCode1 library1 gameCode2 library2 : option jsstring)
        (w1 w2 : World R C) :
  TheCleanCode w1 = TheCleanCode w2 ->
  env w1 = env w2 ->
  let r1 := chatWithCodeAssistant userMessage gameCode1 library1 w1 in
  let r2 := chatWithCodeAssistant userMessage gameCode2 library2 w2 in
  fst r1 = fst r2
  /\ calls (snd r1)
     = calls w1
       ++ [MessagesCreate (chat_request R userMessage (TheCleanCode w1))]
  /\ calls (snd r2)
     = calls w2
       ++ [MessagesCreate (chat_request R userMessage (TheCleanCode w1))]
  /\ system_text (system (chat_request R userMessage (TheCleanCode w1)))
     = AIchatbotPrompt R ++ TheCleanCode w1
  /\ TheCleanCode (snd r1) = TheCleanCode w1
  /\ TheCleanCode (snd r2) = TheCleanCode w2.
Proof.
  intros Hcell Henv r1 r2. subst r1 r2.
  destruct (chat_run R C userMessage gameCode1 library1 w1)
    as (logs1 & e1 & ->).
  destruct (chat_run R C userMessage gameCode2 library2 w2)
    as (logs2 & e2 & ->).
  cbn [fst snd calls TheCleanCode].
  unfold answer_of_create. rewrite <- Hcell, <- Henv.
  repeat split. simpl. now rewrite app_nil_r.
Qed.

Lemma C9_chat_ignores_gameCode_and_library_witness :
  let w := @initial_world demo_ok unit tt tt in
  TheCleanCode w = TheCleanCode w /\ env w = env w
  /\ fst (chatWithCodeAssistant (u "why?") (Some (u "let y;"))
            (Some (u "phaser")) w)
     = fst (chatWithCodeAssistant (u "why?") None None w).
Proof.
  intros w.
  destruct (C9_chat_ignores_gameCode_and_library demo_ok unit (u "why?")
              (Some (u "let y;")) (Some (u "phaser")) None None w w
              eq_refl eq_refl) as (H & _).
  split; [reflexivity|]. split; [reflexivity|]. exact H.
Defined.

(** C10: the cell holds the empty string when the module has been loaded
    and, whatever calls have been made since, the empty string or an
    output of the sanitizer.  With the empty string in the cell a chat
    call sends exactly the assistant template as its system prompt, and
    it ends as the provider's answer does: it fails only if the provider
    fails. *)
Theorem C10_cell_holds_sanitizer_output (R : Runtime) (C : Type) :
  (forall e c, TheCleanCode (@initial_world R C e c) = [])
  /\ (forall w : World R C,
        reachable w ->
        TheCleanCode w = []
        \/ exists raw, TheCleanCode w = stripMarkdownCodeBlocks raw)
  /\ (forall (w : World R C) userMessage gameCode library,
        TheCleanCode w = [] ->
        let r := chatWithCodeAssistant userMessage gameCode library w in
        exists rq,
          calls (snd r) = calls w ++ [MessagesCreate rq]
          /\ system_text (system rq) = AIchatbotPrompt R
          /\ fst r = match answer_of_create rq w with
                     | inr m => inr (trim (text_of_blocks [] (content m)))
                     | inl err => inl err
                     end).
Proof.
  split; [reflexivity|]. split.
  - induction 1 as [e c|w f Hw IH|w w' Hw IH Hstep].
    + now left.
    + exact IH.
    + destruct (call_step_cell R C w w' Hstep) as [->|Hs]; [exact IH|].
      now right.
  - intros w userMessage gameCode library Hcell r. subst r.
    destruct (chat_run R C userMessage gameCode library w)
      as (logs & e' & ->).
    rewrite Hcell. exists (chat_request R userMessage []).
    cbn [fst snd calls]. repeat split.
    simpl. now rewrite !app_nil_r.
Qed.

Lemma C10_cell_holds_sanitizer_output_witness :
  let w0 := @initial_world demo_ok unit tt tt in
  let w1 := snd (generateGame (u "make pong") None w0) in
  reachable w1
  /\ (TheCleanCode w1 = []
      \/ exists raw, TheCleanCode w1 = stripMarkdownCodeBlocks raw)
  /\ TheCleanCode w0 = []
  /\ exists rq,
       calls (snd (chatWithCodeAssistant (u "why?") None None w0))
       = calls w0 ++ [MessagesCreate rq]
       /\ system_text (system rq) = AIchatbotPrompt demo_ok.
Proof.
  intros w0 w1.
  destruct (C10_cell_holds_sanitizer_output demo_ok unit)
    as (Hinit & Hinv & Hchat).
  assert (Hr : reachable w1).
  { apply reach_step with w0; [apply reach_initial|].
    apply step_generateGame. }
  split; [exact Hr|]. split; [exact (Hinv w1 Hr)|].
  split; [apply Hinit|].
  destruct (Hchat w0 (u "why?") None None (Hinit tt tt))
    as (rq & Hcalls & Hsys & _).
  exists rq. split; assumption.
Defined.

(* ================================================================= *)
(** * The generation routes and an absent library *)

(** C8, as the specification states it, fails for the one-shot route: a
    request without library is answered with status 400 and the provider
    is not called. *)
Lemma C8_one_shot_route_rejects_absent_library :
  let w := @initial_world demo_ok Res tt fresh_res in
  let w' := snd (api_generate
                   {| description := JString (u "a bouncing ball");
                      library := JUndefined |} w) in
  statusCode (caller w') = 400%N
  /\ body (caller w')
     = [SentJson (Failure
          (u "Library is required. Choose either " ++ [QUOTE] ++ u "p5js"
           ++ [QUOTE] ++ u " or " ++ [QUOTE] ++ u "phaser" ++ [QUOTE]
           ++ u "."))]
  /\ calls w' = [].
Proof. vm_compute. repeat split. Qed.

Lemma long_enough_is_truthy (s : jsstring) :
  5 <= length (trim s) -> truthy (JString s) = true.
Proof.
  destruct s; simpl; [|reflexivity]. unfold trim, trimEnd. simpl. lia.
Qed.

Lemma sse_callback_returns : returns_normally (Some sse_callback).
Proof. intros ev c. reflexivity. Qed.

Lemma deliver_write_status (evs : list StreamEvent) (res : Res) :
  statusCode (deliver (Some sse_callback) evs res) = statusCode res.
Proof.
  cbn [deliver]. revert res.
  induction evs as [|ev evs IH]; intros res; cbn [hand sse_callback].
  - reflexivity.
  - now rewrite IH.
Qed.

(** C8, amended: on the streaming route a request without library is
    handled as a request for ['p5js']: it is not rejected, the provider is
    asked for a stream with the p5js prompt, and the response is ended
    with the status it had.  On the one-shot route the same request is
    answered with status 400, "Library is required", without a call to
    the provider. *)
Theorem C8_absent_library_by_route
        (R : Runtime) (s : jsstring) (w : World R Res) :
  5 <= length (trim s) ->
  let absent := {| description := JString s; library := JUndefined |} in
  let p5js := {| description := JString s; library := JString (u "p5js") |} in
  api_generate_stream absent w = api_generate_stream p5js w
  /\ (exists c,
        calls (snd (api_generate_stream absent w)) = calls w ++ [c]
        /\ is_stream_call c = true
        /\ system_text (system (request_of c)) = p5jsPrompt R)
  /\ statusCode (caller (snd (api_generate_stream absent w)))
     = statusCode (caller w)
  /\ ended (caller (snd (api_generate_stream absent w))) = true
  /\ api_generate absent w
     = (inr tt,
        {| TheCleanCode := TheCleanCode w; env := env w;
           console := console w; calls := calls w;
           caller :=
             status_json 400
               (Failure
                  (u "Library is required. Choose either " ++ [QUOTE]
                   ++ u "p5js" ++ [QUOTE] ++ u " or " ++ [QUOTE]
                   ++ u "phaser" ++ [QUOTE] ++ u "."))
               (caller w) |}).
Proof.
  intros Hlen absent p5js.
  pose proof (long_enough_is_truthy s Hlen) as Ht.
  assert (Hlt : Nat.ltb (length (trim s)) 5 = false)
    by (apply Nat.ltb_ge; exact Hlen).
  split; [reflexivity|].
  assert (Hrun : exists w0 : World R Res,
    calls w0 = calls w /\ statusCode (caller w0) = statusCode (caller w) /\
    api_generate_stream absent w
    = match generateGameStreaming s (Some (u "p5js"))
              (Some sse_callback) w0 with
      | (inr _, w') =>
          (inr tt, {| TheCleanCode := TheCleanCode w'; env := env w';
                      console := console w'; calls := calls w';
                      caller := end_res (caller w') |})
      | (inl e, w') =>
          (inr tt, {| TheCleanCode := TheCleanCode w'; env := env w';
                      console :=
                        console w' ++ [LStreamingServerError (message e)];
                      calls := calls w';
                      caller :=
                        end_res (write (SentData (EvError (message e)))
                                       (caller w')) |})
      end).
  { unfold api_generate_stream, absent. cbn [description library].
    unfold try_catch at 1. unfold bind at 1.
    rewrite Ht. cbn [negb].
    unfold call_string_method at 1. unfold bind at 1. unfold ret at 1.
    unfold ret at 1. rewrite Hlt.
    cbn [js_or truthy]. unfold call_string_method.
    change (toLowerCase (u "p5js")) with (u "p5js").
    unfold bind at 1. unfold ret at 1.
    change (includes [u "p5js"; u "phaser"] (u "p5js")) with true.
    cbn [negb string_of].
    unfold bind, console_log, on_res.
    cbn [TheCleanCode env console calls caller].
    exists {| TheCleanCode := TheCleanCode w; env := env w;
              console := console w ++ [LStreamingRequest (u "p5js") s];
              calls := calls w;
              caller :=
                setHeader (u "X-Accel-Buffering") (u "no")
                  (setHeader (u "Connection") (u "keep-alive")
                     (setHeader (u "Cache-Control") (u "no-cache")
                        (setHeader (u "Content-Type")
                           (u "text/event-stream") (caller w)))) |}.
    split; [reflexivity|]. split; [reflexivity|].
    destruct (generateGameStreaming _ _ _ _) as [[e|c] w']; reflexivity. }
  destruct Hrun as (w0 & Hcalls & Hstatus & Hrun). rewrite Hrun.
  split; [|split; [|split]].
  - exists (MessagesStream (stream_request R s (Some (u "p5js")))).
    pose proof (generateGameStreaming_calls R Res s (Some (u "p5js"))
      (Some sse_callback) w0) as Hc.
    destruct (generateGameStreaming _ _ _ _) as [[e|c] w'];
      cbn [snd calls] in *; rewrite Hc, Hcalls; repeat split.
  - destruct (final (run_of_stream
                       (stream_request R s (Some (u "p5js"))) w0))
      as [err|m] eqn:E.
    + destruct (generateGameStreaming_failed R Res s (Some (u "p5js"))
        (Some sse_callback) w0 err sse_callback_returns E)
        as (logs & e' & ->).
      cbn [snd caller end_res statusCode write].
      now rewrite deliver_write_status.
    + destruct (generateGameStreaming_answered R Res s (Some (u "p5js"))
        (Some sse_callback) w0 m sse_callback_returns E)
        as (logs & e' & t & -> & _).
      cbn [snd caller end_res statusCode].
      now rewrite deliver_write_status.
  - destruct (generateGameStreaming _ _ _ _) as [[e|c] w']; reflexivity.
  - unfold api_generate, absent. cbn [description library].
    unfold try_catch at 1. unfold bind at 1.
    rewrite Ht. cbn [negb].
    unfold call_string_method at 1. unfold bind at 1. unfold ret at 1.
    rewrite Hlt. cbn [truthy negb]. reflexivity.
Qed.

Lemma C8_absent_library_by_route_witness :
  let w := @initial_world demo_ok Res tt fresh_res in
  let absent := {| description := JString (u "a bouncing ball");
                   library := JUndefined |} in
  5 <= length (trim (u "a bouncing ball"))
  /\ (exists c,
        calls (snd (api_generate_stream absent w)) = calls w ++ [c]
        /\ is_stream_call c = true
        /\ system_text (system (request_of c)) = p5jsPrompt demo_ok)
  /\ statusCode (caller (snd (api_generate_stream absent w))) = 200%N
  /\ statusCode (caller (snd (api_generate absent w))) = 400%N.
Proof.
  intros w absent.
  assert (Hlen : 5 <= length (trim (u "a bouncing ball")))
    by (vm_compute; lia).
  destruct (C8_absent_library_by_route demo_ok (u "a bouncing ball") w Hlen)
    as (_ & Hc & Hs & _ & Hg).
  split; [exact Hlen|]. split; [exact Hc|]. split; [exact Hs|].
  fold absent in Hg. rewrite Hg. reflexivity.
Defined.

(** On the wire a failing stream shows the error twice: once written by
    the callback of [generateGameStreaming], once by the route's own
    handler of the rethrown error. *)
Example stream_route_writes_failure_twice :
  let w := @initial_world demo_failing Res tt fresh_res in
  body (caller (snd (api_generate_stream
                       {| description := JString (u "a bouncing ball");
                          library := JString (u "p5js") |} w)))
  = [SentData (EvChunk (u "let") (u "let") 1);
     SentData (EvChunk (u " x") (u "let x") 2);
     SentData (EvError (u "overloaded"));
     SentData (EvError (u "overloaded"))].
Proof. vm_compute. reflexivity. Qed.

(** The end-to-end example of the specification, on the one-shot route:
    a fenced answer comes back without its fences. *)
Example one_shot_route_example :
  let w := @initial_world
             (scripted (u "```js" ++ [LF] ++ u "// code" ++ [LF])
                       (u "function setup(){}" ++ [LF] ++ u "```")
                       (u "end_turn") None) Res tt fresh_res in
  caller (snd (api_generate
                 {| description := JString (u "a ball bounces off four walls");
                    library := JString (u "p5js") |} w))
  = json (Generated (u "// code" ++ [LF] ++ u "function setup(){}")
                    (u "p5js")) fresh_res.
Proof. vm_compute. reflexivity. Qed.

(* ================================================================= *)
(** * More on the sanitizer *)

Lemma starts_with_prefix (p s : jsstring) :
  starts_with p s = true <-> exists b, s = p ++ b.
Proof.
  revert s; induction p as [|c p IH]; intros s; simpl.
  - split; [intros _; now exists s|reflexivity].
  - destruct s as [|d s]; [split; [discriminate|intros [b Hb]; discriminate]|].
    rewrite andb_true_iff, N.eqb_eq, IH. split.
    + intros [-> [b ->]]. now exists b.
    + intros [b Hb]. injection Hb as -> ->. split; [reflexivity|now exists b].
Qed.

(** [contains] is occurrence as a contiguous part. *)
Lemma contains_occurs (p s : jsstring) :
  contains p s = true <-> exists a b, s = a ++ p ++ b.
Proof.
  induction s as [|d s IH]; simpl.
  - rewrite orb_false_r, starts_with_prefix. split.
    + intros [b Hb]. now exists [], b.
    + intros (a & b & H). destruct a; [now exists b|discriminate].
  - rewrite orb_true_iff, IH.
    change (match p with
            | [] => true
            | a :: p' => N.eqb a d && starts_with p' s
            end) with (starts_with p (d :: s)).
    rewrite starts_with_prefix. split.
    + intros [[b Hb]|(a & b & H)].
      * now exists [], b.
      * exists (d :: a), b. simpl. now rewrite H.
    + intros (a & b & H). destruct a as [|x a].
      * left. now exists b.
      * right. injection H as -> H. now exists a, b.
Qed.

Lemma trim_ends (s : jsstring) :
  (forall c rest, trim s = c :: rest -> isSpace c = false)
  /\ (forall front c, trim s = front ++ [c] -> isSpace c = false).
Proof.
  unfold trim. split.
  - intros c rest H.
    destruct (trimEnd_prefix (trimStart s)) as [w Hw].
    pose proof (trimStart_head s) as Hh.
    rewrite Hw, H in Hh. exact Hh.
  - intros front c H. unfold trimEnd in H.
    apply (f_equal (@rev N)) in H.
    rewrite rev_involutive, rev_app_distr in H. simpl in H.
    pose proof (trimStart_head (rev (trimStart s))) as Hh.
    rewrite H in Hh. exact Hh.
Qed.

Lemma trimStart_spaces (a b : jsstring) :
  forallb isSpace a = true -> trimStart (a ++ b) = trimStart b.
Proof.
  induction a as [|c a IH]; simpl; [reflexivity|].
  intros H. apply andb_true_iff in H as [-> H]. auto.
Qed.

Lemma starts_with_space (p ws : jsstring) (c : N) :
  isSpace c = false -> forallb isSpace ws = true ->
  starts_with (c :: p) ws = false.
Proof.
  intros Hc Hws. destruct ws as [|d ws]; [reflexivity|].
  simpl in *. apply andb_true_iff in Hws as [Hd _].
  destruct (N.eqb c d) eqn:E; [|reflexivity].
  apply N.eqb_eq in E. congruence.
Qed.

Lemma contains_space (p ws : jsstring) (c : N) :
  isSpace c = false -> forallb isSpace ws = true ->
  contains (c :: p) ws = false.
Proof.
  intros Hc. induction ws as [|d ws IH]; intros Hws; [reflexivity|].
  cbn [contains]. rewrite (starts_with_space p (d :: ws) c Hc Hws).
  simpl in Hws. apply andb_true_iff in Hws as [_ Hws]. now apply IH.
Qed.

Lemma line_start_space (p ws : jsstring) (c : N) :
  isSpace c = false -> forallb isSpace ws = true ->
  forall pr, line_start_from (c :: p) pr ws = false.
Proof.
  intros Hc. induction ws as [|d ws IH]; intros Hws pr.
  - cbn [line_start_from starts_with]. now rewrite andb_false_r.
  - cbn [line_start_from].
    rewrite (starts_with_space p (d :: ws) c Hc Hws), andb_false_r.
    simpl in Hws. apply andb_true_iff in Hws as [_ Hws]. now apply IH.
Qed.

(** What a replacement adds comes from its substitutions. *)
Lemma replace_from_forallb (P : N -> bool) (fl : flags) (r : regex)
      (tpl : list repl_part) :
  (forall cs, forallb P (substitution tpl cs) = true) ->
  forall sf skip pr,
    forallb P sf = true ->
    forallb P (replace_from fl r tpl skip pr sf) = true.
Proof.
  intros Hsub. induction sf as [|c sf IH]; intros skip pr H.
  - destruct skip; cbn [replace_from]; [|reflexivity].
    destruct (exec_at fl r pr []) as [[len cs]|]; [|reflexivity].
    now rewrite app_nil_r.
  - simpl in H. apply andb_true_iff in H as [Hc H].
    destruct skip as [|n]; cbn [replace_from]; [|now apply IH].
    destruct (exec_at fl r pr (c :: sf)) as [[len cs]|].
    + rewrite forallb_app, Hsub.
      destruct len; simpl; [rewrite Hc|]; simpl; auto.
    + simpl. rewrite Hc. simpl. auto.
Qed.

Lemma spaces_have_no_marker (x : jsstring) :
  forallb isSpace x = true ->
  contains fence x = false /\ contains bold_mark x = false
  /\ some_line_starts_with rule_mark x = false
  /\ some_line_starts_with heading_mark x = false.
Proof.
  intros H. repeat split.
  - now apply contains_space.
  - now apply contains_space.
  - now apply line_start_space.
  - now apply line_start_space.
Qed.

(** X1: the sanitized text never holds three line feeds in a row. *)
Theorem sanitized_has_no_three_line_feeds (x : jsstring) :
  ~ exists a b, stripMarkdownCodeBlocks x = a ++ [LF; LF; LF] ++ b.
Proof.
  intros H. apply contains_occurs in H.
  now rewrite sanitizer_output_collapsed in H.
Qed.

(** X2: the sanitized text neither starts nor ends with white space, and
    trimming it again changes nothing. *)
Theorem sanitized_is_trimmed (x : jsstring) :
  (forall c rest, stripMarkdownCodeBlocks x = c :: rest -> isSpace c = false)
  /\ (forall front c,
        stripMarkdownCodeBlocks x = front ++ [c] -> isSpace c = false)
  /\ trim (stripMarkdownCodeBlocks x) = stripMarkdownCodeBlocks x.
Proof.
  unfold stripMarkdownCodeBlocks.
  match goal with |- context [trim ?t] => destruct (trim_ends t) as [H1 H2] end.
  repeat split; [exact H1|exact H2|apply trim_idem].
Qed.

(** X3: a text of white space only, the empty text included, is
    sanitized to the empty text. *)
Theorem sanitized_white_space_is_empty (x : jsstring) :
  forallb isSpace x = true -> stripMarkdownCodeBlocks x = [].
Proof.
  intros H.
  destruct (spaces_have_no_marker x H) as (Hf & Hb & Hr & Hh).
  unfold stripMarkdownCodeBlocks, replace.
  rewrite (replace_without_match flags_gi re_fence_start [] x [])
    by (apply (no_match_unanchored _ _ _ fence_start_match), Hf).
  rewrite (replace_without_match flags_g re_fence_end [] x [])
    by (apply (no_match_unanchored _ _ _ fence_end_match), Hf).
  rewrite (replace_without_match flags_g re_bold [RGroup 1] x [])
    by (apply (no_match_unanchored _ _ _ bold_match), Hb).
  rewrite (replace_without_match flags_gm re_rule [] x [])
    by (apply (no_match_anchored _ _ rule_match), Hr).
  rewrite (replace_without_match flags_gm re_heading [] x [])
    by (apply (no_match_anchored _ _ heading_match), Hh).
  assert (Hs : forallb isSpace
                 (replace_from flags_g re_newlines [RText [LF; LF]] 0 [] x)
               = true).
  { apply replace_from_forallb; [intros cs; reflexivity|exact H]. }
  unfold trim.
  rewrite <- (app_nil_r (replace_from _ _ _ _ _ _)).
  now rewrite (trimStart_spaces _ [] Hs).
Qed.

Lemma sanitized_white_space_is_empty_witness :
  forallb isSpace [32; LF; 9; 160; 13]%N = true
  /\ stripMarkdownCodeBlocks [32; LF; 9; 160; 13]%N = [].
Proof.
  split; [reflexivity|].
  apply sanitized_white_space_is_empty. reflexivity.
Defined.

(** ** Literals, runs of white space and prefixes without a match *)

Lemma matcher_eps (fl : flags) (x : mstate) (k : cont) :
  matcher fl Eps x k = k x.
Proof. reflexivity. Qed.

Lemma matcher_alt (fl : flags) (r1 r2 : regex) (x : mstate) (k : cont) :
  matcher fl (Alt r1 r2) x k =
  match matcher fl r1 x k with
  | Some z => Some z
  | None => matcher fl r2 x k
  end.
Proof. reflexivity. Qed.

(** A literal either fails or hands the text behind it to the rest of
    the pattern. *)
Lemma matcher_lit_eq (fl : flags) (p : jsstring) :
  forall (x : mstate) (k : cont),
    matcher fl (Lit p) x k =
    if lit_matches fl p (suf x)
    then k {| pre := rev (firstn (length p) (suf x)) ++ pre x;
              suf := skipn (length p) (suf x); caps := caps x |}
    else None.
Proof.
  induction p as [|d p IH]; intros x k.
  - destruct x; reflexivity.
  - destruct p as [|d' p].
    + simpl. destruct (suf x) as [|c sf]; [reflexivity|].
      rewrite andb_true_r. reflexivity.
    + change (Lit (d :: d' :: p)) with (Seq (Atom (AChar d)) (Lit (d' :: p))).
      rewrite matcher_seq. cbn [matcher].
      destruct (suf x) as [|c sf]; [reflexivity|].
      change (lit_matches fl (d :: d' :: p) (c :: sf))
        with (atom_matches fl (AChar d) c && lit_matches fl (d' :: p) sf).
      destruct (atom_matches fl (AChar d) c); [|reflexivity].
      rewrite IH. cbn [suf pre caps andb].
      destruct (lit_matches fl (d' :: p) sf); [|reflexivity].
      change (length (d :: d' :: p)) with (S (length (d' :: p))).
      cbn [firstn skipn rev]. now rewrite <- app_assoc.
Qed.

(** A run of the class is taken whole when the rest of the pattern
    always succeeds. *)
Lemma rep_run (p : N -> bool) :
  forall ws rest pr cs,
    forallb p ws = true ->
    match rest with [] => True | d :: _ => p d = false end ->
    rep p 0 pr (ws ++ rest) cs Some =
    Some {| pre := rev ws ++ pr; suf := rest; caps := cs |}.
Proof.
  induction ws as [|c ws IH]; intros rest pr cs Hws Hrest.
  - destruct rest as [|d rest]; simpl; [reflexivity|]. now rewrite Hrest.
  - simpl in Hws. apply andb_true_iff in Hws as [Hc Hws].
    simpl. rewrite Hc, (IH rest (c :: pr) cs Hws Hrest).
    now rewrite <- app_assoc.
Qed.

Lemma replace_from_match (fl : flags) (r : regex) (tpl : list repl_part)
      (pr sf : jsstring) (n : nat) (cs : captures) :
  exec_at fl r pr sf = Some (S n, cs) -> S n <= length sf ->
  replace_from fl r tpl 0 pr sf =
  substitution tpl cs
  ++ replace_from fl r tpl 0 (rev (firstn (S n) sf) ++ pr) (skipn (S n) sf).
Proof.
  intros H Hn. destruct sf as [|c sf]; [simpl in Hn; lia|].
  cbn [replace_from]. rewrite H. f_equal.
  rewrite replace_from_skip by (simpl in Hn; lia).
  simpl. now rewrite <- app_assoc.
Qed.

(** A prefix in which the pattern matches nowhere is copied. *)
Lemma replace_from_prefix (fl : flags) (r : regex) (tpl : list repl_part)
      (b : jsstring) :
  forall a pr,
    (forall a1 a2, a = a1 ++ a2 -> a2 <> [] ->
                   exec_at fl r (rev a1 ++ pr) (a2 ++ b) = None) ->
    replace_from fl r tpl 0 pr (a ++ b)
    = a ++ replace_from fl r tpl 0 (rev a ++ pr) b.
Proof.
  induction a as [|c a IH]; intros pr H; [reflexivity|].
  pose proof (H [] (c :: a) eq_refl) as H0. cbn [rev app] in H0.
  cbn [app replace_from]. rewrite H0 by discriminate.
  f_equal. rewrite IH.
  - simpl. now rewrite <- app_assoc.
  - intros a1 a2 Ha Hne.
    specialize (H (c :: a1) a2). simpl in H. rewrite <- app_assoc in H.
    apply H; [now rewrite Ha|exact Hne].
Qed.

Lemma starts_with_before_space (c : N) (r : jsstring) :
  isSpace c = true ->
  forall s p, no_space p = true ->
              starts_with p (s ++ c :: r) = starts_with p s.
Proof.
  intros Hc. induction s as [|x s IH]; intros [|d p] Hp; try reflexivity.
  - simpl in *. apply andb_true_iff in Hp as [Hd _].
    destruct (N.eqb d c) eqn:E; [|reflexivity].
    apply N.eqb_eq in E. subst d. now rewrite Hc in Hd.
  - simpl in *. apply andb_true_iff in Hp as [_ Hp]. now rewrite IH.
Qed.

Lemma contains_before_spaces (p ws : jsstring) (d : N) :
  no_space (d :: p) = true -> forallb isSpace ws = true ->
  forall s, contains (d :: p) (s ++ ws) = contains (d :: p) s.
Proof.
  intros Hp Hws.
  assert (Hd : isSpace d = false).
  { simpl in Hp. apply andb_true_iff in Hp as [Hd _].
    now apply negb_true_iff in Hd. }
  induction s as [|x s IH].
  - simpl app. now rewrite (contains_space p ws d Hd Hws).
  - cbn [app contains]. rewrite IH. f_equal.
    destruct ws as [|c ws]; [now rewrite app_nil_r|].
    simpl in Hws. apply andb_true_iff in Hws as [Hc _].
    exact (starts_with_before_space c ws Hc (x :: s) (d :: p) Hp).
Qed.

Lemma line_start_before_spaces (p ws : jsstring) (d : N) :
  no_space (d :: p) = true -> forallb isSpace ws = true ->
  forall s pr,
    line_start_from (d :: p) pr (s ++ ws) = line_start_from (d :: p) pr s.
Proof.
  intros Hp Hws.
  assert (Hd : isSpace d = false).
  { simpl in Hp. apply andb_true_iff in Hp as [Hd _].
    now apply negb_true_iff in Hd. }
  induction s as [|x s IH]; intros pr.
  - simpl app. rewrite (line_start_space p ws d Hd Hws).
    cbn [line_start_from starts_with]. now rewrite andb_false_r.
  - cbn [app line_start_from]. rewrite IH. f_equal. f_equal.
    destruct ws as [|c ws]; [now rewrite app_nil_r|].
    simpl in Hws. apply andb_true_iff in Hws as [Hc _].
    exact (starts_with_before_space c ws Hc (x :: s) (d :: p) Hp).
Qed.

Lemma starts_with_of_suffix (p a1 a2 : jsstring) :
  contains p (a1 ++ a2) = false -> starts_with p a2 = false.
Proof.
  intros H. destruct (starts_with p a2) eqn:E; [|reflexivity].
  apply starts_with_contains in E.
  now rewrite (contains_app_r p a1 a2 E) in H.
Qed.

Lemma leading_LF_before (l : N) (r : jsstring) :
  N.eqb l LF = false ->
  forall a, leading_LF (a ++ l :: r) = leading_LF (a ++ [l]).
Proof.
  intros Hl. induction a as [|c a IH]; simpl.
  - now rewrite Hl.
  - now rewrite IH.
Qed.

Lemma leading_LF_app_le (a b : jsstring) :
  leading_LF a <= leading_LF (a ++ b).
Proof.
  induction a as [|c a IH]; simpl; [lia|].
  destruct (N.eqb c LF); lia.
Qed.

(** ** A fenced block *)

Lemma space_range (c : N) : isSpace c = true -> (c <= 32 \/ 160 <= c)%N.
Proof.
  unfold isSpace, isWhiteSpace, isLineTerminator.
  rewrite !orb_true_iff, !andb_true_iff, !N.eqb_eq, !N.leb_le. lia.
Qed.

Lemma space_is_no_letter (c d : N) :
  isSpace c = true -> (65 <= d <= 122)%N ->
  atom_matches flags_gi (AChar d) c = false.
Proof.
  intros Hc Hd. apply space_range in Hc.
  cbn [atom_matches flags_gi ignoreCase]. apply N.eqb_neq.
  unfold canonicalize.
  destruct (N.leb 97 c && N.leb c 122) eqn:E1.
  - apply andb_true_iff in E1 as [E1 E2]. apply N.leb_le in E1, E2. lia.
  - destruct (N.leb 97 d && N.leb d 122) eqn:E2; [|lia].
    apply andb_true_iff in E2 as [E2 E3]. apply N.leb_le in E2, E3. lia.
Qed.

Lemma fence_start_at (pr sf : jsstring) (m : nat * captures) :
  exec_at flags_gi re_fence_start pr sf = Some m ->
  starts_with fence sf = true.
Proof.
  unfold exec_at, re_fence_start.
  destruct (matcher _ _ _ _) as [z|] eqn:E; [intros _|discriminate].
  rewrite matcher_seq in E.
  now apply (matcher_lit flags_gi fence exact_fence_gi) in E as [E _].
Qed.

(** The opening pattern at a fence with a known tag, or none, that is
    followed by white space or by the end of the text: it takes the
    fence, the tag and all the white space. *)
Lemma fence_start_exec (tag ws rest pr : jsstring) :
  In tag fence_tags ->
  forallb isSpace ws = true ->
  ws <> [] \/ rest = [] ->
  match rest with [] => True | d :: _ => isSpace d = false end ->
  exec_at flags_gi re_fence_start pr (fence ++ tag ++ ws ++ rest)
  = Some (3 + length tag + length ws, []).
Proof.
  intros Htag Hws Hne Hrest.
  unfold exec_at, re_fence_start, Opt.
  rewrite matcher_seq, matcher_lit_eq.
  change (lit_matches flags_gi (u "```")
            (suf {| pre := pr; suf := fence ++ tag ++ ws ++ rest;
                    caps := [] |})) with true.
  cbv iota.
  change (length (u "```")) with 3.
  change (skipn 3 (suf {| pre := pr; suf := fence ++ tag ++ ws ++ rest;
                          caps := [] |})) with (tag ++ ws ++ rest).
  cbn [pre caps].
  change (firstn 3 (suf {| pre := pr; suf := fence ++ tag ++ ws ++ rest;
                          caps := [] |})) with fence.
  rewrite matcher_seq, !matcher_alt, !matcher_lit_eq. cbn [suf pre caps].
  assert (Hrun : forall pr',
             matcher flags_gi (Rep 0 ASpace)
               {| pre := pr'; suf := ws ++ rest; caps := [] |} Some
             = Some {| pre := rev ws ++ pr'; suf := rest; caps := [] |}).
  { intros pr'. rewrite matcher_rep. cbn [pre suf caps].
    apply (rep_run (atom_matches flags_gi ASpace)); assumption. }
  assert (Hletter : forall L,
             match L with
             | d :: _ => N.leb 65 d && N.leb d 122
             | [] => false
             end = true ->
             lit_matches flags_gi L (ws ++ rest) = false).
  { intros [|d L] Hd; [discriminate|].
    apply andb_true_iff in Hd as [Hd1 Hd2]. apply N.leb_le in Hd1, Hd2.
    destruct ws as [|c ws].
    - destruct Hne as [Hne| ->]; [congruence|reflexivity].
    - simpl in Hws. apply andb_true_iff in Hws as [Hc _].
      cbn [app lit_matches].
      now rewrite (space_is_no_letter c d Hc (conj Hd1 Hd2)). }
  assert (Hlen : forall n, length (ws ++ rest) = n + length rest ->
                           n = length ws).
  { intros n. rewrite length_app. lia. }
  unfold fence_tags in Htag. cbn [In] in Htag.
  destruct Htag as [<-|[<-|[<-|[<-|[<-|[]]]]]]; cbn [app].
  - rewrite !Hletter by reflexivity. rewrite matcher_eps, Hrun.
    cbn [suf caps]. rewrite !length_app.
    change (length fence) with 3. cbn [length]. f_equal. f_equal. lia.
  - change (lit_matches flags_gi (u "javascript")
              (u "javascript" ++ ws ++ rest)) with true.
    cbv iota.
    change (skipn (length (u "javascript")) (u "javascript" ++ ws ++ rest))
      with (ws ++ rest).
    rewrite Hrun. cbn [suf caps]. rewrite !length_app.
    change (length fence) with 3. change (length (u "javascript")) with 10.
    f_equal. f_equal. lia.
  - change (lit_matches flags_gi (u "javascript") (u "js" ++ ws ++ rest))
      with false.
    change (lit_matches flags_gi (u "js") (u "js" ++ ws ++ rest)) with true.
    cbv iota.
    change (skipn (length (u "js")) (u "js" ++ ws ++ rest))
      with (ws ++ rest).
    rewrite Hrun. cbn [suf caps]. rewrite !length_app.
    change (length fence) with 3. change (length (u "js")) with 2.
    f_equal. f_equal. lia.
  - change (lit_matches flags_gi (u "javascript")
              (u "typescript" ++ ws ++ rest)) with false.
    change (lit_matches flags_gi (u "js") (u "typescript" ++ ws ++ rest))
      with false.
    change (lit_matches flags_gi (u "typescript")
              (u "typescript" ++ ws ++ rest)) with true.
    cbv iota.
    change (skipn (length (u "typescript")) (u "typescript" ++ ws ++ rest))
      with (ws ++ rest).
    rewrite Hrun. cbn [suf caps]. rewrite !length_app.
    change (length fence) with 3. change (length (u "typescript")) with 10.
    f_equal. f_equal. lia.
  - change (lit_matches flags_gi (u "javascript") (u "ts" ++ ws ++ rest))
      with false.
    change (lit_matches flags_gi (u "js") (u "ts" ++ ws ++ rest)) with false.
    change (lit_matches flags_gi (u "typescript") (u "ts" ++ ws ++ rest))
      with false.
    change (lit_matches flags_gi (u "ts") (u "ts" ++ ws ++ rest)) with true.
    cbv iota.
    change (skipn (length (u "ts")) (u "ts" ++ ws ++ rest))
      with (ws ++ rest).
    rewrite Hrun. cbn [suf caps]. rewrite !length_app.
    change (length fence) with 3. change (length (u "ts")) with 2.
    f_equal. f_equal. lia.
Qed.

Lemma skipn_length_app {A : Type} (l r : list A) :
  skipn (length l) (l ++ r) = r.
Proof. induction l as [|x l IH]; simpl; auto. Qed.

Lemma fence_start_nil (pr : jsstring) :
  replace_from flags_gi re_fence_start [] 0 pr [] = [].
Proof.
  cbn [replace_from].
  destruct (exec_at flags_gi re_fence_start pr []) eqn:E; [|reflexivity].
  apply fence_start_at in E. discriminate.
Qed.

(** The first replacement on a block between two fences: the opening
    fence with its tag and the white space behind it goes, and so does
    the closing fence with the white space behind it. *)
Lemma fence_start_unwraps (tag ws1 a a' ws3 : jsstring) (s : N) :
  In tag fence_tags ->
  forallb isSpace ws1 = true -> ws1 <> [] ->
  match a with [] => True | d :: _ => isSpace d = false end ->
  a = a' ++ [s] -> isSpace s = true ->
  contains fence a = false ->
  forallb isSpace ws3 = true ->
  replace flags_gi re_fence_start [] (fence ++ tag ++ ws1 ++ a ++ fence ++ ws3)
  = a.
Proof.
  intros Htag Hws1 Hne Hhead Ha Hs Hfence Hws3. unfold replace.
  assert (Hrest : match a ++ fence ++ ws3 with
                  | [] => True
                  | d :: _ => isSpace d = false
                  end).
  { destruct a as [|d a0]; [destruct a'; discriminate|exact Hhead]. }
  pose proof (fence_start_exec tag ws1 (a ++ fence ++ ws3) []
                Htag Hws1 (or_introl Hne) Hrest) as Hopen.
  assert (Hlen : 3 + length tag + length ws1 <=
                 length (fence ++ tag ++ ws1 ++ a ++ fence ++ ws3)).
  { rewrite !length_app. change (length fence) with 3. lia. }
  rewrite (replace_from_match flags_gi re_fence_start [] []
             (fence ++ tag ++ ws1 ++ a ++ fence ++ ws3)
             (2 + length tag + length ws1) [] Hopen Hlen).
  change (S (2 + length tag + length ws1))
    with (3 + length tag + length ws1).
  assert (Hskip : skipn (3 + length tag + length ws1)
                    (fence ++ tag ++ ws1 ++ a ++ fence ++ ws3)
                  = a ++ fence ++ ws3).
  { replace (3 + length tag + length ws1)
      with (length (fence ++ tag ++ ws1))
      by (rewrite !length_app; change (length fence) with 3; lia).
    replace (fence ++ tag ++ ws1 ++ a ++ fence ++ ws3)
      with ((fence ++ tag ++ ws1) ++ a ++ fence ++ ws3)
      by (now rewrite <- !app_assoc).
    apply skipn_length_app. }
  rewrite Hskip. cbn [substitution app].
  rewrite replace_from_prefix.
  - assert (Hclose : forall pr,
               exec_at flags_gi re_fence_start pr (fence ++ ws3)
               = Some (S (2 + length ws3), [])).
    { intros pr.
      pose proof (fence_start_exec [] ws3 [] pr
                    (or_introl eq_refl) Hws3 (or_intror eq_refl) I) as H.
      cbn [app] in H. rewrite app_nil_r in H. exact H. }
    assert (Hlen3 : 3 + length ws3 <= length (fence ++ ws3))
      by (rewrite length_app; change (length fence) with 3; lia).
    rewrite (replace_from_match flags_gi re_fence_start [] _ (fence ++ ws3)
               (2 + length ws3) [] (Hclose _) Hlen3).
    change (S (2 + length ws3)) with (length fence + length ws3).
    rewrite <- length_app, skipn_all, fence_start_nil.
    cbn [substitution app]. now rewrite app_nil_r.
  - intros a1 a2 Hsplit Hne2.
    destruct (exec_at flags_gi re_fence_start _ (a2 ++ fence ++ ws3))
      as [m|] eqn:E; [|reflexivity].
    exfalso. apply fence_start_at in E.
    destruct (exists_last Hne2) as (a2' & s' & ->).
    assert (s' = s).
    { rewrite Ha, app_assoc in Hsplit.
      now apply app_inj_tail in Hsplit as [_ ->]. }
    subst s'. rewrite <- app_assoc in E. cbn [app] in E.
    rewrite (starts_with_before_space s (fence ++ ws3) Hs a2' fence eq_refl)
      in E.
    apply starts_with_contains in E.
    rewrite Hsplit in Hfence.
    rewrite (contains_app_r fence a1 (a2' ++ [s])
               (contains_app_l fence a2' [s] E)) in Hfence.
    discriminate.
Qed.

Lemma marker_before_spaces (p ws s : jsstring) :
  negb (jseqb p []) && no_space p = true -> forallb isSpace ws = true ->
  contains p (s ++ ws) = contains p s
  /\ forall pr, line_start_from p pr (s ++ ws) = line_start_from p pr s.
Proof.
  destruct p as [|d p]; [discriminate|]. cbn [jseqb negb andb].
  intros Hp Hws. split.
  - now apply contains_before_spaces.
  - intros pr. now apply line_start_before_spaces.
Qed.

Lemma forallb_rev (P : N -> bool) (l : jsstring) :
  forallb P l = true -> forallb P (rev l) = true.
Proof.
  rewrite !forallb_forall. intros H x Hx. apply H. now apply in_rev.
Qed.

Lemma trim_drops_trailing_spaces (body ws : jsstring) :
  body <> [] -> trim body = body -> forallb isSpace ws = true ->
  trim (body ++ ws) = body.
Proof.
  intros Hne Ht Hws.
  destruct (trim_ends body) as [Hhead _]. rewrite Ht in Hhead.
  assert (Hstart : trimStart body = body).
  { apply trimStart_fixed. destruct body as [|c b]; [exact I|].
    exact (Hhead c b eq_refl). }
  assert (Hend : trimEnd body = body).
  { unfold trim in Ht. now rewrite Hstart in Ht. }
  unfold trim.
  assert (Hs : trimStart (body ++ ws) = body ++ ws).
  { apply trimStart_fixed. destruct body as [|c b]; [congruence|].
    exact (Hhead c b eq_refl). }
  rewrite Hs. unfold trimEnd. rewrite rev_app_distr.
  rewrite (trimStart_spaces (rev ws) (rev body) (forallb_rev _ _ Hws)).
  exact Hend.
Qed.

(** X5: a block between an opening fence with a known language tag (or
    none) and a closing fence, with white space behind the tag, before
    the closing fence and possibly behind it, is sanitized to its body,
    when the body is trimmed and holds no fence, no ["**"], no line
    starting with ["---"] or ["#"] and no three line feeds in a row. *)
Theorem fenced_block_is_unwrapped (tag ws1 body ws2 ws3 : jsstring) :
  In tag fence_tags ->
  forallb isSpace ws1 = true -> ws1 <> [] ->
  forallb isSpace ws2 = true -> ws2 <> [] ->
  forallb isSpace ws3 = true ->
  body <> [] -> trim body = body ->
  contains fence body = false ->
  contains bold_mark body = false ->
  some_line_starts_with rule_mark body = false ->
  some_line_starts_with heading_mark body = false ->
  contains [LF; LF; LF] body = false ->
  stripMarkdownCodeBlocks (fence ++ tag ++ ws1 ++ body ++ ws2 ++ fence ++ ws3)
  = body.
Proof.
  intros Htag Hws1 Hne1 Hws2 Hne2 Hws3 Hne Ht Hf Hb Hr Hh Hn.
  destruct (trim_ends body) as [Hhead Hlast]. rewrite Ht in Hhead, Hlast.
  destruct (exists_last Hne2) as (ws2' & s & Hws2e).
  assert (Hs : isSpace s = true).
  { rewrite Hws2e, forallb_app in Hws2. simpl in Hws2.
    apply andb_true_iff in Hws2 as [_ Hws2].
    now apply andb_true_iff in Hws2 as [Hws2 _]. }
  unfold stripMarkdownCodeBlocks.
  replace (fence ++ tag ++ ws1 ++ body ++ ws2 ++ fence ++ ws3)
    with (fence ++ tag ++ ws1 ++ (body ++ ws2) ++ fence ++ ws3)
    by (now rewrite <- !app_assoc).
  rewrite (fence_start_unwraps tag ws1 (body ++ ws2) (body ++ ws2') ws3 s);
    try assumption.
  - unfold replace.
    rewrite (replace_without_match flags_g re_fence_end [] (body ++ ws2) [])
      by (apply (no_match_unanchored _ _ _ fence_end_match);
          now rewrite (proj1 (marker_before_spaces fence ws2 body
                                eq_refl Hws2))).
    rewrite (replace_without_match flags_g re_bold [RGroup 1]
               (body ++ ws2) [])
      by (apply (no_match_unanchored _ _ _ bold_match);
          now rewrite (proj1 (marker_before_spaces bold_mark ws2 body
                                eq_refl Hws2))).
    rewrite (replace_without_match flags_gm re_rule [] (body ++ ws2) [])
      by (apply (no_match_anchored _ _ rule_match);
          now rewrite (proj2 (marker_before_spaces rule_mark ws2 body
                                eq_refl Hws2))).
    rewrite (replace_without_match flags_gm re_heading [] (body ++ ws2) [])
      by (apply (no_match_anchored _ _ heading_match);
          now rewrite (proj2 (marker_before_spaces heading_mark ws2 body
                                eq_refl Hws2))).
    rewrite replace_from_prefix.
    + apply trim_drops_trailing_spaces; try assumption.
      apply replace_from_forallb; [intros cs; reflexivity|exact Hws2].
    + intros a1 a2 Hsplit Hne'.
      rewrite newlines_exec.
      destruct (Nat.leb 3 (leading_LF (a2 ++ ws2))) eqn:E; [|reflexivity].
      exfalso. apply Nat.leb_le in E.
      destruct (exists_last Hne') as (a2' & l & ->).
      assert (Hl : isSpace l = false).
      { apply (Hlast (a1 ++ a2') l). now rewrite <- app_assoc. }
      assert (Hl' : N.eqb l LF = false).
      { destruct (N.eqb l LF) eqn:El; [|reflexivity].
        apply N.eqb_eq in El. subst l. discriminate. }
      rewrite <- app_assoc in E. cbn [app] in E.
      rewrite (leading_LF_before l ws2 Hl') in E.
      rewrite Hsplit in Hn.
      apply starts_with_of_suffix in Hn.
      rewrite starts_with_LF3 in Hn. apply Nat.leb_gt in Hn. lia.
  - destruct body as [|c b]; [congruence|]. exact (Hhead c b eq_refl).
  - now rewrite Hws2e, app_assoc.
  - now rewrite (proj1 (marker_before_spaces fence ws2 body eq_refl Hws2)).
Qed.

Lemma fenced_block_is_unwrapped_witness :
  let body := u "function setup(){}" ++ [LF] ++ u "// done" in
  In (u "js") fence_tags
  /\ trim body = body
  /\ stripMarkdownCodeBlocks
       (fence ++ u "js" ++ [LF] ++ body ++ [LF] ++ fence ++ [LF])
     = body.
Proof.
  intros body.
  assert (Htag : In (u "js") fence_tags) by (right; right; now left).
  assert (Ht : trim body = body) by (vm_compute; reflexivity).
  split; [exact Htag|]. split; [exact Ht|].
  apply (fenced_block_is_unwrapped (u "js") [LF] body [LF] [LF]);
    try exact Htag; try exact Ht; try discriminate;
    vm_compute; reflexivity.
Defined.

(** X4: a text that is trimmed and holds no fence, no ["**"], no line
    starting with ["---"] or ["#"] and no three line feeds in a row is
    returned as it is. *)
Theorem plain_text_is_kept (y : jsstring) :
  contains fence y = false ->
  contains bold_mark y = false ->
  some_line_starts_with rule_mark y = false ->
  some_line_starts_with heading_mark y = false ->
  contains [LF; LF; LF] y = false ->
  trim y = y ->
  stripMarkdownCodeBlocks y = y.
Proof. exact (sanitizer_fixed_point y). Qed.

Lemma plain_text_is_kept_witness :
  let y := u "let a = b * c - 1; // #1" ++ [LF; LF] ++ u "draw();" in
  contains fence y = false
  /\ contains bold_mark y = false
  /\ some_line_starts_with rule_mark y = false
  /\ some_line_starts_with heading_mark y = false
  /\ contains [LF; LF; LF] y = false
  /\ trim y = y
  /\ stripMarkdownCodeBlocks y = y.
Proof.
  intros y.
  assert (H1 : contains fence y = false) by (vm_compute; reflexivity).
  assert (H2 : contains bold_mark y = false) by (vm_compute; reflexivity).
  assert (H3 : some_line_starts_with rule_mark y = false)
    by (vm_compute; reflexivity).
  assert (H4 : some_line_starts_with heading_mark y = false)
    by (vm_compute; reflexivity).
  assert (H5 : contains [LF; LF; LF] y = false) by (vm_compute; reflexivity).
  assert (H6 : trim y = y) by (vm_compute; reflexivity).
  repeat (split; [assumption|]).
  exact (plain_text_is_kept y H1 H2 H3 H4 H5 H6).
Defined.

(** ** Bold markers *)

Lemma matcher_grp (fl : flags) (i : nat) (r : regex) (x : mstate)
      (k : cont) :
  matcher fl (Grp i r) x k =
  matcher fl r x (fun y =>
    k {| pre := pre y; suf := suf y;
         caps := (i, firstn (length (suf x) - length (suf y)) (suf x))
                 :: caps y |}).
Proof. reflexivity. Qed.

(** A run of the class followed by a character outside it is taken
    whole when the rest of the pattern succeeds behind it. *)
Lemma rep_run_then (p : N -> bool) (k : cont) (z : mstate) :
  forall ws rest min pr cs,
    forallb p ws = true ->
    match rest with [] => True | d :: _ => p d = false end ->
    min <= length ws ->
    k {| pre := rev ws ++ pr; suf := rest; caps := cs |} = Some z ->
    rep p min pr (ws ++ rest) cs k = Some z.
Proof.
  induction ws as [|c ws IH]; intros rest min pr cs Hws Hrest Hmin Hk.
  - simpl in Hmin. assert (min = 0) as -> by lia.
    destruct rest as [|d rest]; simpl; [exact Hk|]. now rewrite Hrest.
  - simpl in Hws. apply andb_true_iff in Hws as [Hc Hws].
    cbn [app rep]. rewrite Hc.
    rewrite (IH rest (Nat.pred min) (c :: pr) cs Hws Hrest).
    + reflexivity.
    + simpl in Hmin. lia.
    + simpl in Hk. now rewrite <- app_assoc in Hk.
Qed.

Lemma without_contains (c : N) (p s : jsstring) :
  without c s = true -> contains (c :: p) s = false.
Proof.
  induction s as [|d s IH]; [reflexivity|].
  cbn [without forallb contains starts_with]. intros H.
  apply andb_true_iff in H as [Hd H].
  apply negb_true_iff in Hd. rewrite (N.eqb_sym c d), Hd.
  now apply IH.
Qed.

Lemma without_app (c : N) (a b : jsstring) :
  without c (a ++ b) = without c a && without c b.
Proof. apply forallb_app. Qed.

Lemma bold_at (pr sf : jsstring) (m : nat * captures) :
  exec_at flags_g re_bold pr sf = Some m -> starts_with bold_mark sf = true.
Proof.
  unfold exec_at, re_bold.
  destruct (matcher _ _ _ _) as [z|] eqn:E; [intros _|discriminate].
  rewrite matcher_seq in E.
  now apply (matcher_lit flags_g bold_mark
               (exact_case_sensitive flags_g _ eq_refl)) in E as [E _].
Qed.

(** The bold pattern at ["**"], a text without asterisk, ["**"]: it
    takes all of it and captures the text. *)
Lemma bold_exec (m q pr : jsstring) :
  m <> [] -> without STAR m = true ->
  exec_at flags_g re_bold pr (bold_mark ++ m ++ bold_mark ++ q)
  = Some (4 + length m, [(1, m)]).
Proof.
  intros Hne Hm. unfold exec_at, re_bold.
  rewrite matcher_seq, matcher_lit_eq.
  change (lit_matches flags_g (u "**")
            (suf {| pre := pr; suf := bold_mark ++ m ++ bold_mark ++ q;
                    caps := [] |})) with true.
  cbv iota. cbn [pre caps suf].
  change (skipn (length (u "**")) (bold_mark ++ m ++ bold_mark ++ q))
    with (m ++ bold_mark ++ q).
  rewrite matcher_seq, matcher_grp, matcher_rep. cbn [pre suf caps].
  set (z := {| pre := rev bold_mark ++ rev m
                      ++ rev (firstn (length (u "**"))
                                (bold_mark ++ m ++ bold_mark ++ q)) ++ pr;
               suf := q; caps := [(1, m)] |}).
  rewrite (rep_run_then (atom_matches flags_g (ANot STAR)) _ z m
             (bold_mark ++ q) 1).
  - unfold z. cbn [suf caps]. rewrite !length_app.
    change (length bold_mark) with 2. f_equal. f_equal. lia.
  - exact Hm.
  - reflexivity.
  - destruct m; [congruence|simpl; lia].
  - rewrite matcher_lit_eq. cbn [suf pre caps].
    change (lit_matches flags_g (u "**") (bold_mark ++ q)) with true.
    cbv iota. unfold z. f_equal. f_equal.
    rewrite !length_app.
    replace (length m + (length bold_mark + length q)
             - (length bold_mark + length q)) with (length m) by lia.
    now rewrite firstn_app, Nat.sub_diag, firstn_all, app_nil_r.
Qed.

(** X7: ["**"] around a text is removed and the text kept: with no
    backtick and no asterisk elsewhere, the emphasised text is sanitized
    as the same text without the markers. *)
Theorem bold_markers_are_removed (p m q : jsstring) :
  m <> [] ->
  without BACKTICK (p ++ m ++ q) = true ->
  without STAR (p ++ m ++ q) = true ->
  stripMarkdownCodeBlocks (p ++ bold_mark ++ m ++ bold_mark ++ q)
  = stripMarkdownCodeBlocks (p ++ m ++ q).
Proof.
  intros Hne Hbt Hst.
  rewrite !without_app in Hbt, Hst.
  apply andb_true_iff in Hbt as [Hbp Hbt].
  apply andb_true_iff in Hbt as [Hbm Hbq].
  apply andb_true_iff in Hst as [Hsp Hst].
  apply andb_true_iff in Hst as [Hsm Hsq].
  assert (HfL : contains fence (p ++ bold_mark ++ m ++ bold_mark ++ q)
                = false).
  { apply (without_contains BACKTICK (u "``")). rewrite !without_app.
    now rewrite Hbp, Hbm, Hbq. }
  assert (HfR : contains fence (p ++ m ++ q) = false).
  { apply (without_contains BACKTICK (u "``")). rewrite !without_app.
    now rewrite Hbp, Hbm, Hbq. }
  assert (HbR : contains bold_mark (p ++ m ++ q) = false).
  { apply (without_contains STAR (u "*")). rewrite !without_app.
    now rewrite Hsp, Hsm, Hsq. }
  unfold stripMarkdownCodeBlocks, replace.
  rewrite (replace_without_match flags_gi re_fence_start [] _ [])
    by (apply (no_match_unanchored _ _ _ fence_start_match), HfL).
  rewrite (replace_without_match flags_g re_fence_end [] _ [])
    by (apply (no_match_unanchored _ _ _ fence_end_match), HfL).
  rewrite (replace_without_match flags_gi re_fence_start [] (p ++ m ++ q) [])
    by (apply (no_match_unanchored _ _ _ fence_start_match), HfR).
  rewrite (replace_without_match flags_g re_fence_end [] (p ++ m ++ q) [])
    by (apply (no_match_unanchored _ _ _ fence_end_match), HfR).
  rewrite (replace_without_match flags_g re_bold [RGroup 1] (p ++ m ++ q) [])
    by (apply (no_match_unanchored _ _ _ bold_match), HbR).
  assert (Hbold : replace_from flags_g re_bold [RGroup 1] 0 []
                    (p ++ bold_mark ++ m ++ bold_mark ++ q)
                  = p ++ m ++ q).
  { rewrite replace_from_prefix.
    - f_equal.
      assert (Hlen : 4 + length m
                     <= length (bold_mark ++ m ++ bold_mark ++ q)).
      { rewrite !length_app. change (length bold_mark) with 2. lia. }
      rewrite (replace_from_match flags_g re_bold [RGroup 1] _ _
                 (3 + length m) [(1, m)] (bold_exec m q _ Hne Hsm) Hlen).
      cbn [substitution capture Nat.eqb]. rewrite app_nil_r. f_equal.
      replace (S (3 + length m)) with (length (bold_mark ++ m ++ bold_mark))
        by (rewrite !length_app; change (length bold_mark) with 2; lia).
      replace (bold_mark ++ m ++ bold_mark ++ q)
        with ((bold_mark ++ m ++ bold_mark) ++ q)
        by (now rewrite <- !app_assoc).
      rewrite skipn_length_app.
      apply replace_without_match.
      apply (no_match_unanchored _ _ _ bold_match).
      now apply (without_contains STAR (u "*")).
    - intros a1 a2 Hsplit Hne2.
      destruct (exec_at flags_g re_bold _ _) as [r|] eqn:E; [|reflexivity].
      exfalso. apply bold_at in E.
      destruct a2 as [|d a2]; [congruence|].
      rewrite Hsplit, without_app in Hsp.
      apply andb_true_iff in Hsp as [_ Hsp]. simpl in Hsp.
      apply andb_true_iff in Hsp as [Hd _]. apply negb_true_iff in Hd.
      change (starts_with bold_mark
                ((d :: a2) ++ bold_mark ++ m ++ bold_mark ++ q))
        with (N.eqb STAR d
              && starts_with [STAR]
                   (a2 ++ bold_mark ++ m ++ bold_mark ++ q)) in E.
      rewrite (N.eqb_sym STAR d), Hd in E. discriminate. }
  now rewrite Hbold.
Qed.

Lemma bold_markers_are_removed_witness :
  u "very" <> []
  /\ without BACKTICK (u "a " ++ u "very" ++ u " big") = true
  /\ without STAR (u "a " ++ u "very" ++ u " big") = true
  /\ stripMarkdownCodeBlocks
       (u "a " ++ bold_mark ++ u "very" ++ bold_mark ++ u " big")
     = stripMarkdownCodeBlocks (u "a " ++ u "very" ++ u " big").
Proof.
  assert (H0 : u "very" <> []) by discriminate.
  split; [exact H0|]. split; [reflexivity|]. split; [reflexivity|].
  exact (bold_markers_are_removed (u "a ") (u "very") (u " big") H0
           eq_refl eq_refl).
Defined.

(** ** The length of the result *)

Lemma exec_at_length (fl : flags) (r : regex) (pr sf : jsstring)
      (len : nat) (cs : captures) :
  exec_at fl r pr sf = Some (len, cs) -> len <= length sf.
Proof.
  unfold exec_at. destruct (matcher _ _ _ _); [|discriminate].
  intros H. injection H as <- _. lia.
Qed.

(** A replacement whose substitutions are no longer than the matches
    does not lengthen the text. *)
Lemma replace_from_length (fl : flags) (r : regex) (tpl : list repl_part) :
  (forall pr sf len cs,
      exec_at fl r pr sf = Some (len, cs) ->
      length (substitution tpl cs) <= len) ->
  forall sf skip pr,
    length (replace_from fl r tpl skip pr sf) <= length sf - skip.
Proof.
  intros Hsub. induction sf as [|c sf IH]; intros skip pr.
  - destruct skip; cbn [replace_from]; [|simpl; lia].
    destruct (exec_at fl r pr []) as [[len cs]|] eqn:E; [|simpl; lia].
    pose proof (Hsub _ _ _ _ E). pose proof (exec_at_length _ _ _ _ _ _ E).
    rewrite app_nil_r. simpl in *. lia.
  - destruct skip as [|n]; cbn [replace_from].
    + destruct (exec_at fl r pr (c :: sf)) as [[len cs]|] eqn:E.
      * pose proof (Hsub _ _ _ _ E) as H1.
        pose proof (exec_at_length _ _ _ _ _ _ E) as H2.
        rewrite length_app. destruct len as [|n].
        -- pose proof (IH 0 (c :: pr)). simpl in *. lia.
        -- pose proof (IH n (c :: pr)). simpl in *. lia.
      * pose proof (IH 0 (c :: pr)). simpl in *. lia.
    + pose proof (IH n (c :: pr)). simpl in *. lia.
Qed.

Lemma bold_capture_length (pr sf : jsstring) (len : nat) (cs : captures) :
  exec_at flags_g re_bold pr sf = Some (len, cs) ->
  length (substitution [RGroup 1] cs) <= len.
Proof.
  unfold exec_at, re_bold.
  destruct (matcher _ _ _ _) as [z|] eqn:E; [|discriminate].
  intros H. injection H as <- <-.
  rewrite matcher_seq, matcher_lit_eq in E.
  destruct (lit_matches _ _ _); [|discriminate].
  cbn [pre suf caps] in E.
  pose proof (length_skipn (length (u "**")) sf) as Hs1.
  remember (skipn (length (u "**")) sf) as s1 eqn:Es1. clear Es1.
  rewrite matcher_seq, matcher_grp, matcher_rep in E. cbn [pre suf caps] in E.
  apply rep_some in E as (n & Hmin & Hn & _ & E).
  rewrite matcher_lit_eq in E. cbn [pre suf caps] in E.
  destruct (lit_matches _ _ _); [|discriminate].
  pose proof (length_skipn n s1) as Hs2.
  remember (skipn n s1) as s2 eqn:Es2. clear Es2.
  pose proof (length_skipn (length (u "**")) s2) as Hs3.
  remember (skipn (length (u "**")) s2) as s3 eqn:Es3. clear Es3.
  injection E as <-. cbn [suf caps substitution capture Nat.eqb].
  rewrite app_nil_r, length_firstn.
  change (length (u "**")) with 2 in *. lia.
Qed.

Lemma trim_length (s : jsstring) : length (trim s) <= length s.
Proof.
  unfold trim.
  destruct (trimStart_suffix s) as [w1 H1].
  destruct (trimEnd_prefix (trimStart s)) as [w2 H2].
  apply (f_equal (@length N)) in H1, H2. rewrite length_app in H1, H2. lia.
Qed.

(** X6: the sanitized text is never longer than the text. *)
Theorem sanitizing_never_lengthens (x : jsstring) :
  length (stripMarkdownCodeBlocks x) <= length x.
Proof.
  unfold stripMarkdownCodeBlocks, replace.
  assert (Hempty : forall fl r,
             forall pr sf len cs,
               exec_at fl r pr sf = Some (len, cs) ->
               length (substitution [] cs) <= len)
    by (intros; simpl; lia).
  assert (Hnl : forall pr sf len cs,
             exec_at flags_g re_newlines pr sf = Some (len, cs) ->
             length (substitution [RText [LF; LF]] cs) <= len).
  { intros pr sf len cs. rewrite newlines_exec.
    destruct (Nat.leb 3 (leading_LF sf)) eqn:E; [|discriminate].
    intros H. injection H as <- _. apply Nat.leb_le in E. simpl. lia. }
  pose proof (replace_from_length flags_gi re_fence_start []
                (Hempty _ _) x 0 []) as H1.
  set (x1 := replace_from flags_gi re_fence_start [] 0 [] x) in *.
  pose proof (replace_from_length flags_g re_fence_end []
                (Hempty _ _) x1 0 []) as H2.
  set (x2 := replace_from flags_g re_fence_end [] 0 [] x1) in *.
  pose proof (replace_from_length flags_g re_bold [RGroup 1]
                bold_capture_length x2 0 []) as H3.
  set (x3 := replace_from flags_g re_bold [RGroup 1] 0 [] x2) in *.
  pose proof (replace_from_length flags_gm re_rule []
                (Hempty _ _) x3 0 []) as H4.
  set (x4 := replace_from flags_gm re_rule [] 0 [] x3) in *.
  pose proof (replace_from_length flags_gm re_heading []
                (Hempty _ _) x4 0 []) as H5.
  set (x5 := replace_from flags_gm re_heading [] 0 [] x4) in *.
  pose proof (replace_from_length flags_g re_newlines [RText [LF; LF]]
                Hnl x5 0 []) as H6.
  set (x6 := replace_from flags_g re_newlines [RText [LF; LF]] 0 [] x5) in *.
  pose proof (trim_length x6). lia.
Qed.

(* ================================================================= *)
(** * More on the calls *)

Lemma text_of_blocks_concat (bs : list ContentBlock) :
  forall acc,
    text_of_blocks acc bs
    = acc ++ concat (map block_text (filter is_text_block bs)).
Proof.
  induction bs as [|b bs IH]; intros acc.
  - simpl. now rewrite app_nil_r.
  - cbn [text_of_blocks filter]. rewrite IH.
    change (jseqb (block_type b) (u "text")) with (is_text_block b).
    destruct (is_text_block b); [|reflexivity].
    cbn [map concat]. now rewrite app_assoc.
Qed.

Lemma generateGame_throws (R : Runtime) (C : Type) (description : jsstring)
      (library : option jsstring) (w : World R C) (e : Error) :
  fst (generateGame description library w) = inl e ->
  answer_of_create (generate_request R description library) w = inl e
  /\ TheCleanCode (snd (generateGame description library w))
     = TheCleanCode w.
Proof.
  destruct (answer_of_create (generate_request R description library) w)
    as [e'|m] eqn:E.
  - destruct (generateGame_failed R C description library w e' E)
      as (logs & env' & ->). cbn [fst snd TheCleanCode].
    intros H. injection H as ->. auto.
  - destruct (generateGame_answered R C description library w m E)
      as (logs & env' & -> & _). discriminate.
Qed.

(** Whatever the callback does, a streaming call that throws has not
    written the cell. *)
Lemma generateGameStreaming_throws (R : Runtime) (C : Type)
      (description : jsstring) (library : option jsstring)
      (onChunk : option (Callback C)) (w : World R C) (e : Error) :
  fst (generateGameStreaming description library onChunk w) = inl e ->
  TheCleanCode (snd (generateGameStreaming description library onChunk w))
  = TheCleanCode w.
Proof.
  destruct (generateGameStreaming_run R C description library onChunk w)
    as (logs & env' & t & Hrun & _).
  cbn zeta in Hrun. rewrite Hrun. destruct (caught _ _) as [e'|].
  - reflexivity.
  - discriminate.
Qed.

(** With a callback that returns normally, a streaming call throws what
    its stream failed with, and only then. *)
Lemma generateGameStreaming_throws_iff (R : Runtime) (C : Type)
      (description : jsstring) (library : option jsstring)
      (onChunk : option (Callback C)) (w : World R C) (e : Error) :
  returns_normally onChunk ->
  fst (generateGameStreaming description library onChunk w) = inl e
  <-> final (run_of_stream (stream_request R description library) w) = inl e.
Proof.
  intros Hn.
  destruct (final (run_of_stream (stream_request R description library) w))
    as [e'|m] eqn:E.
  - destruct (generateGameStreaming_failed R C description library
                onChunk w e' Hn E) as (logs & env' & ->).
    cbn [fst]. split; intros H; injection H as ->; reflexivity.
  - destruct (generateGameStreaming_answered R C description library
                onChunk w m Hn E) as (logs & env' & t & -> & _).
    cbn [fst]. split; discriminate.
Qed.

(** X8: when a call throws.  [generateGame] and [chatWithCodeAssistant]
    throw exactly when their provider call fails, and then throw the
    provider's error itself; so does [generateGameStreaming] when it has
    no callback or a callback that returns normally.  Whatever the
    callback does, a stream that fails makes the streaming call throw, and
    a generation call that throws leaves the cell as it was. *)
Theorem failure_is_the_providers
        (R : Runtime) (C : Type) (description userMessage : jsstring)
        (library gameCode : option jsstring) (onChunk : option (Callback C))
        (w : World R C) (err : Error) :
  (fst (generateGame description library w) = inl err
   <-> answer_of_create (generate_request R description library) w = inl err)
  /\ (fst (chatWithCodeAssistant userMessage gameCode library w) = inl err
      <-> answer_of_create (chat_request R userMessage (TheCleanCode w)) w
          = inl err)
  /\ (returns_normally onChunk ->
      (fst (generateGameStreaming description library onChunk w) = inl err
       <-> final (run_of_stream (stream_request R description library) w)
           = inl err))
  /\ (final (run_of_stream (stream_request R description library) w)
      = inl err ->
      exists e, fst (generateGameStreaming description library onChunk w)
                = inl e)
  /\ (fst (generateGame description library w) = inl err ->
      TheCleanCode (snd (generateGame description library w))
      = TheCleanCode w)
  /\ (fst (generateGameStreaming description library onChunk w) = inl err ->
      TheCleanCode (snd (generateGameStreaming description library onChunk w))
      = TheCleanCode w).
Proof.
  pose proof (generateGame_throws R C description library w) as Hg.
  split; [|split; [|split; [|split; [|split]]]].
  - split.
    + intros H. now apply Hg.
    + intros E.
      destruct (generateGame_failed R C description library w err E)
        as (logs & env' & ->). reflexivity.
  - destruct (chat_run R C userMessage gameCode library w)
      as (logs & env' & ->). cbn [fst].
    destruct (answer_of_create
                (chat_request R userMessage (TheCleanCode w)) w);
      split; intros H; try discriminate; now injection H as ->.
  - intros Hn. now apply generateGameStreaming_throws_iff.
  - intros E.
    destruct (generateGameStreaming_run R C description library onChunk w)
      as (logs & env' & t & Hrun & _).
    cbn zeta in Hrun. rewrite Hrun, E. clear Hrun.
    destruct (caught _ (inl err)) as [e|] eqn:Ec.
    + destruct (thrown onChunk [EvError (message e)] _) as [e2|];
        eexists; reflexivity.
    + revert Ec.
      destruct (thrown onChunk _ (caller w)); cbn [caught]; discriminate.
  - intros H. now apply Hg in H.
  - apply generateGameStreaming_throws.
Qed.

Lemma failure_is_the_providers_witness :
  let w := @initial_world demo_failing (list StreamEvent) tt [] in
  let err := {| message := u "overloaded" |} in
  answer_of_create (generate_request demo_failing (u "make pong") None) w
  = inl err
  /\ returns_normally (Some record_event)
  /\ final (run_of_stream
              (stream_request demo_failing (u "make pong") None) w)
     = inl err
  /\ fst (generateGame (u "make pong") None w) = inl err
  /\ fst (generateGameStreaming (u "make pong") None (Some record_event) w)
     = inl err
  /\ TheCleanCode (snd (generateGame (u "make pong") None w))
     = TheCleanCode w.
Proof.
  intros w err.
  destruct (failure_is_the_providers demo_failing (list StreamEvent)
              (u "make pong") (u "why?") None None (Some record_event) w err)
    as (H1 & _ & H3 & _ & H5 & _).
  assert (E : answer_of_create
                (generate_request demo_failing (u "make pong") None) w
              = inl err) by reflexivity.
  assert (F : final (run_of_stream
                       (stream_request demo_failing (u "make pong") None) w)
              = inl err) by reflexivity.
  split; [exact E|]. split; [exact record_event_returns|].
  split; [exact F|]. split; [exact (proj2 H1 E)|].
  split; [exact (proj2 (H3 record_event_returns) F)|].
  exact (H5 (proj2 H1 E)).
Defined.

(** X9: what the one-shot functions return when the provider answers:
    the texts of the blocks of type ['text'], in order and with nothing
    between them, the other blocks left out; sanitized by [generateGame],
    only trimmed by [chatWithCodeAssistant]. *)
Theorem answer_is_the_text_blocks
        (R : Runtime) (C : Type) (description userMessage : jsstring)
        (library gameCode : option jsstring) (w : World R C) (m : Message) :
  let text := concat (map block_text (filter is_text_block (content m))) in
  (answer_of_create (generate_request R description library) w = inr m ->
   fst (generateGame description library w)
   = inr (stripMarkdownCodeBlocks text))
  /\ (answer_of_create (chat_request R userMessage (TheCleanCode w)) w
      = inr m ->
      fst (chatWithCodeAssistant userMessage gameCode library w)
      = inr (trim text)).
Proof.
  intros text. split; intros E.
  - destruct (generateGame_answered R C description library w m E)
      as (logs & env' & -> & _).
    cbn [fst]. now rewrite text_of_blocks_concat.
  - destruct (chat_run R C userMessage gameCode library w)
      as (logs & env' & ->).
    cbn [fst]. rewrite E. now rewrite text_of_blocks_concat.
Qed.

Lemma answer_is_the_text_blocks_witness :
  let w := @initial_world demo_ok unit tt tt in
  let m := scripted_message
             ((u "```js" ++ [LF] ++ u "let x")
              ++ (u " = 1;" ++ [LF] ++ u "```"))
             (u "end_turn") in
  answer_of_create (generate_request demo_ok (u "make pong") None) w = inr m
  /\ fst (generateGame (u "make pong") None w)
     = inr (stripMarkdownCodeBlocks
              (concat (map block_text (filter is_text_block (content m))))).
Proof.
  intros w m.
  assert (E : answer_of_create
                (generate_request demo_ok (u "make pong") None) w = inr m)
    by reflexivity.
  split; [exact E|].
  exact (proj1 (answer_is_the_text_blocks demo_ok unit (u "make pong")
                  (u "why?") None None w m) E).
Defined.

(** X10: the callback steers a streaming call only by throwing.
    Whatever the callback does, the call makes the request it makes
    without a callback; without a callback the caller's state is not
    touched.  A callback that returns normally changes neither the outcome
    nor the cell.  A callback that throws [e] on the complete event, and
    on no other event, makes the call throw [e] although the stream ended
    with a final message and the call without a callback returns the code:
    the callback is handed the error event with the message of [e] after
    the complete event, and the cell is left as it was. *)
Theorem callback_steers_only_by_throwing
        (R : Runtime) (C : Type) (description : jsstring)
        (library : option jsstring) (onChunk : option (Callback C))
        (w : World R C) :
  let r := generateGameStreaming description library onChunk w in
  let r0 := generateGameStreaming description library None w in
  let run := run_of_stream (stream_request R description library) w in
  let cleanCode := stripMarkdownCodeBlocks (last_snapshot (texts run)) in
  calls (snd r) = calls (snd r0)
  /\ caller (snd r0) = caller w
  /\ (returns_normally onChunk ->
      fst r = fst r0 /\ TheCleanCode (snd r) = TheCleanCode (snd r0))
  /\ (forall (f : Callback C) (e : Error) (m : Message),
        onChunk = Some f ->
        (forall ev c, fst (f ev c) = if is_complete ev then Some e else None) ->
        final run = inr m ->
        exists totalTime,
          fst r = inl e
          /\ fst r0 = inr cleanCode
          /\ TheCleanCode (snd r) = TheCleanCode w
          /\ TheCleanCode (snd r0) = cleanCode
          /\ caller (snd r)
             = deliver onChunk [EvError (message e)]
                 (deliver onChunk
                    (chunk_events 0 (texts run)
                     ++ [EvComplete cleanCode totalTime (length (texts run))
                                    (output_tokens (usage m))])
                    (caller w))).
Proof.
  intros r r0 run cleanCode. subst r r0.
  pose proof (fun ev c => eq_refl : thrown (@None (Callback C)) [ev] c = None)
    as Hnone.
  split; [|split; [|split]].
  - now rewrite !generateGameStreaming_calls.
  - destruct (generateGameStreaming_run R C description library None w)
      as (logs & env' & t & Hrun & _).
    cbn zeta in Hrun. rewrite Hrun. now destruct (caught _ _).
  - intros Hn.
    destruct (final run) as [err|m] eqn:E.
    + destruct (generateGameStreaming_failed R C description library
                  onChunk w err Hn E) as (logs & env' & ->).
      destruct (generateGameStreaming_failed R C description library
                  None w err Hnone E) as (logs0 & env0 & ->).
      split; reflexivity.
    + destruct (generateGameStreaming_answered R C description library
                  onChunk w m Hn E) as (logs & env' & t & -> & _).
      destruct (generateGameStreaming_answered R C description library
                  None w m Hnone E) as (logs0 & env0 & t0 & -> & _).
      split; reflexivity.
  - intros f e m -> Hf E.
    destruct (generateGameStreaming_answered R C description library
                None w m Hnone E) as (logs0 & env0 & t0 & -> & _).
    destruct (generateGameStreaming_run R C description library (Some f) w)
      as (logs & env' & t & Hrun & _).
    cbn zeta in Hrun. fold run in Hrun. rewrite E in Hrun.
    assert (Hchunks : forall evs n c,
               thrown (Some f) (chunk_events n evs) c = None).
    { induction evs as [|[d s] evs IH]; intros n c; [reflexivity|].
      cbn [chunk_events thrown hand].
      pose proof (Hf (EvChunk d s (S n)) c) as H1.
      destruct (f (EvChunk d s (S n)) c) as [t1 c1]. cbn [fst is_complete] in H1.
      subst t1. apply (IH (S n) c1). }
    assert (Hcomplete : forall a b n k c,
               thrown (Some f) [EvComplete a b n k] c = Some e).
    { intros a b n k c. cbn [thrown hand].
      pose proof (Hf (EvComplete a b n k) c) as H1.
      destruct (f (EvComplete a b n k) c) as [t1 c1].
      cbn [fst is_complete] in H1. now subst t1. }
    assert (Herror : forall msg c, thrown (Some f) [EvError msg] c = None).
    { intros msg c. cbn [thrown hand].
      pose proof (Hf (EvError msg) c) as H1.
      destruct (f (EvError msg) c) as [t1 c1].
      cbn [fst is_complete] in H1. now subst t1. }
    rewrite thrown_app, Hchunks, Hcomplete in Hrun. cbn [caught] in Hrun.
    rewrite Herror in Hrun. rewrite Hrun.
    exists t. repeat split.
Qed.

Lemma callback_steers_only_by_throwing_witness :
  let w := {| TheCleanCode := u "let y = 2;"; env := tt : Env demo_ok;
              console := []; calls := []; caller := @nil StreamEvent |} in
  let boom := {| message := u "boom" |} in
  let r := generateGameStreaming (u "make pong") None
             (Some (record_until_complete boom)) w in
  let r0 := generateGameStreaming (u "make pong") None None w in
  fst r = inl boom
  /\ fst r0 = inr (u "let x = 1;")
  /\ TheCleanCode (snd r) = u "let y = 2;"
  /\ TheCleanCode (snd r0) = u "let x = 1;"
  /\ calls (snd r) = calls (snd r0)
  /\ exists totalTime,
       caller (snd r)
       = chunk_events 0
           (texts (run_of_stream
                     (stream_request demo_ok (u "make pong") None) w))
         ++ [EvComplete (u "let x = 1;") totalTime 2 12;
             EvError (u "boom")].
Proof.
  intros w boom r r0.
  destruct (callback_steers_only_by_throwing demo_ok (list StreamEvent)
              (u "make pong") None (Some (record_until_complete boom)) w)
    as (Hcalls & _ & _ & H).
  destruct (H (record_until_complete boom) boom
              (scripted_message
                 ((u "```js" ++ [LF] ++ u "let x")
                  ++ (u " = 1;" ++ [LF] ++ u "```"))
                 (u "end_turn"))
              eq_refl (fun ev c => eq_refl) eq_refl)
    as (t & H1 & H2 & H3 & H4 & H5).
  assert (Hcode : stripMarkdownCodeBlocks
                    (last_snapshot
                       (texts (run_of_stream
                                 (stream_request demo_ok (u "make pong") None)
                                 w)))
                  = u "let x = 1;") by (vm_compute; reflexivity).
  rewrite Hcode in H2, H4, H5.
  split; [exact H1|]. split; [exact H2|]. split; [exact H3|].
  split; [exact H4|]. split; [exact Hcalls|].
  exists t. unfold r. rewrite H5. reflexivity.
Defined.

(** X11: a stream that ends without a single text event gives the empty
    code: the call returns [""], hands the callback one complete event
    with the empty code and a chunk count of 0, and empties the cell. *)
Theorem stream_without_text_gives_empty_code
        (R : Runtime) (description : jsstring) (library : option jsstring)
        (w : World R (list StreamEvent)) (m : Message) :
  let run := run_of_stream (stream_request R description library) w in
  texts run = [] -> final run = inr m ->
  exists totalTime w',
    generateGameStreaming description library (Some record_event) w
    = (inr [], w')
    /\ caller w'
       = caller w ++ [EvComplete [] totalTime 0 (output_tokens (usage m))]
    /\ TheCleanCode w' = [].
Proof.
  intros run Htexts Hfinal.
  destruct (generateGameStreaming_answered R _ description library
              (Some record_event) w m record_event_returns Hfinal)
    as (logs & env' & totalTime & Hrun & _).
  fold run in Hrun. rewrite Htexts in Hrun.
  change (stripMarkdownCodeBlocks (last_snapshot [])) with (@nil N) in Hrun.
  exists totalTime. eexists. split; [exact Hrun|].
  cbn [caller TheCleanCode]. now rewrite deliver_record.
Qed.

Lemma stream_without_text_gives_empty_code_witness :
  let silent :=
    {| Env := unit; Instant := unit;
       messages_create := fun _ e => (inr (scripted_message [] []), e);
       messages_stream := fun _ e =>
         ({| texts := []; final := inr (scripted_message [] []) |}, e);
       performance_now := fun e => (tt, e);
       seconds := fun _ _ => u "0.00";
       p5jsPrompt := u "P5"; phaserPrompt := u "PH";
       AIchatbotPrompt := u "ASSIST:" |} in
  let w := {| TheCleanCode := u "let x = 1;"; env := tt : Env silent;
              console := []; calls := [];
              caller := @nil StreamEvent |} in
  exists totalTime w',
    generateGameStreaming (u "make pong") None (Some record_event) w
    = (inr [], w')
    /\ caller w' = [EvComplete [] totalTime 0 12]
    /\ TheCleanCode w' = [].
Proof.
  intros silent w.
  exact (stream_without_text_gives_empty_code silent (u "make pong") None w
           (scripted_message [] []) eq_refl eq_refl).
Defined.

(** X12: a generation that fails does not disturb the chat context: the
    next chat call still sends the assistant template followed by what
    the cell held before the failed call. *)
Theorem failed_generation_keeps_chat_context
        (R : Runtime) (C : Type) (description userMessage : jsstring)
        (library gameCode chatLibrary : option jsstring)
        (onChunk : option (Callback C)) (w w' : World R C) (err : Error) :
  generateGame description library w = (inl err, w')
  \/ generateGameStreaming description library onChunk w = (inl err, w') ->
  exists rq,
    calls (snd (chatWithCodeAssistant userMessage gameCode chatLibrary w'))
    = calls w' ++ [MessagesCreate rq]
    /\ system_text (system rq) = AIchatbotPrompt R ++ TheCleanCode w.
Proof.
  intros H.
  assert (Hc : TheCleanCode w' = TheCleanCode w).
  { destruct H as [H|H].
    - pose proof (generateGame_throws R C description library w err) as Hg.
      rewrite H in Hg. now apply Hg.
    - pose proof (generateGameStreaming_throws R C description library
                    onChunk w err) as Hs.
      rewrite H in Hs. now apply Hs. }
  destruct (chat_run R C userMessage gameCode chatLibrary w')
    as (logs & env' & ->).
  rewrite Hc. exists (chat_request R userMessage (TheCleanCode w)).
  cbn [snd calls chat_request system system_text map sys_text concat].
  now rewrite app_nil_r.
Qed.

Lemma failed_generation_keeps_chat_context_witness :
  let w := {| TheCleanCode := u "let x = 1;"; env := tt : Env demo_failing;
              console := []; calls := []; caller := tt |} in
  let w' := snd (generateGame (u "make pong") None w) in
  generateGame (u "make pong") None w
  = (inl {| message := u "overloaded" |}, w')
  /\ exists rq,
       calls (snd (chatWithCodeAssistant (u "why?") None None w'))
       = calls w' ++ [MessagesCreate rq]
       /\ system_text (system rq)
          = AIchatbotPrompt demo_failing ++ u "let x = 1;".
Proof.
  intros w w'.
  assert (H : generateGame (u "make pong") None w
              = (inl {| message := u "overloaded" |}, w'))
    by (vm_compute; reflexivity).
  split; [exact H|].
  exact (failed_generation_keeps_chat_context demo_failing unit
           (u "make pong") (u "why?") None None None None w w'
           {| message := u "overloaded" |} (or_introl H)).
Defined.

(* ================================================================= *)
(** * More on the routes *)

Ltac run_route :=
  unfold api_generate, api_generate_stream, api_chat, message_trim,
    call_string_method, on_res, on_chat, try_catch, bind, ret, throw,
    console_log, now;
  cbn [description library chat_message chat_gameCode chat_library
       TheCleanCode env console calls caller].

Lemma short_text_cases (s : jsstring) :
  truthy (JString s) = false \/ truthy (JString s) = true.
Proof. destruct (truthy (JString s)); auto. Qed.

(** X13: the one-shot route answers 400, without calling the provider
    and without touching the cell, when the description is missing or
    empty, when it has fewer than five characters once trimmed, when the
    library is missing or empty, and when the library in lower case is
    neither ['p5js'] nor ['phaser']. *)
Theorem generate_route_rejects (R : Runtime) (req : Body) (w : World R Res) :
  truthy (description req) = false
  \/ (exists s, description req = JString s /\ length (trim s) < 5)
  \/ (exists s, description req = JString s /\ 5 <= length (trim s)
                /\ truthy (library req) = false)
  \/ (exists s l, description req = JString s /\ 5 <= length (trim s)
                  /\ library req = JString l /\ l <> []
                  /\ includes [u "p5js"; u "phaser"] (toLowerCase l) = false)
  ->
  exists msg,
    api_generate req w
    = (inr tt, with_caller (status_json 400 (Failure msg) (caller w)) w).
Proof.
  destruct req as [d l]. cbn [description library].
  intros [H|[(s & -> & H)|[(s & -> & Hs & H)|(s & l' & -> & Hs & -> & Hl & H)]]].
  - run_route. rewrite H. cbn [negb]. eexists. reflexivity.
  - run_route. destruct (short_text_cases s) as [Ht|Ht]; rewrite Ht;
      cbn [negb]; [eexists; reflexivity|].
    apply Nat.ltb_lt in H. rewrite H. eexists. reflexivity.
  - run_route. rewrite (long_enough_is_truthy s Hs). cbn [negb].
    apply Nat.ltb_ge in Hs. rewrite Hs, H. cbn [negb].
    eexists. reflexivity.
  - run_route. rewrite (long_enough_is_truthy s Hs). cbn [negb].
    apply Nat.ltb_ge in Hs. rewrite Hs.
    assert (Ht : truthy (JString l') = true)
      by (destruct l'; [congruence|reflexivity]).
    rewrite Ht. cbn [negb]. rewrite H. cbn [negb].
    eexists. reflexivity.
Qed.

Lemma generate_route_rejects_witness :
  let w := @initial_world demo_ok Res tt fresh_res in
  let req := {| description := JString (u "  hi  ");
                library := JString (u "p5js") |} in
  (exists s, description req = JString s /\ length (trim s) < 5)
  /\ exists msg,
       api_generate req w
       = (inr tt, with_caller (status_json 400 (Failure msg) (caller w)) w).
Proof.
  intros w req.
  assert (H : exists s, description req = JString s /\ length (trim s) < 5).
  { exists (u "  hi  "). split; [reflexivity|]. vm_compute. lia. }
  split; [exact H|].
  exact (generate_route_rejects demo_ok req w (or_intror (or_introl H))).
Defined.

(** The one-shot route on a request that passes its checks. *)
Lemma generate_route_run (R : Runtime) (s l : jsstring) (w : World R Res) :
  5 <= length (trim s) -> l <> [] ->
  includes [u "p5js"; u "phaser"] (toLowerCase l) = true ->
  api_generate {| description := JString s; library := JString l |} w
  = match generateGame s (Some (toLowerCase l))
            (generate_route_world (toLowerCase l) s w) with
    | (inr gameCode, w') =>
        (inr tt,
         {| TheCleanCode := TheCleanCode w';
            env := snd (performance_now R (env w'));
            console :=
              (console w' ++ [LServerGenerated])
              ++ [LGenerationTime
                    (seconds R (fst (performance_now R (env w)))
                             (fst (performance_now R (env w'))))];
            calls := calls w';
            caller := json (Generated gameCode (toLowerCase l))
                           (caller w') |})
    | (inl error, w') =>
        (inr tt,
         {| TheCleanCode := TheCleanCode w';
            env := env w';
            console := console w' ++ [LServerError (message error)];
            calls := calls w';
            caller := status_json 500 (Failure (message error))
                                  (caller w') |})
    end.
Proof.
  intros Hs Hl Hin. run_route.
  rewrite (long_enough_is_truthy s Hs). cbn [negb].
  apply Nat.ltb_ge in Hs. rewrite Hs.
  assert (Ht : truthy (JString l) = true)
    by (destruct l; [congruence|reflexivity]).
  rewrite Ht. cbn [negb]. rewrite Hin. cbn [negb string_of].
  unfold generate_route_world.
  destruct (performance_now R (env w)) as [t1 e1]. cbn [fst snd].
  destruct (generateGame _ _ _) as [[error|gameCode] w']; [reflexivity|].
  destruct (performance_now R (env w')) as [t2 e3]. reflexivity.
Qed.

(** X14: a request that passes the checks of the one-shot route makes
    it call the provider once, with the description as sent as the one
    user message and with the prompt of the library in lower case as
    system text: the phaser prompt for ['phaser'], the p5js prompt for
    ['p5js'].  When the provider answers, the response is
    [{success: true, code, library}] with the sanitized text and the
    library in lower case, and the cell holds that code; when the
    provider fails, the response is 500 with the provider's message and
    the cell is as before. *)
Theorem generate_route_answers
        (R : Runtime) (s l : jsstring) (w : World R Res) :
  5 <= length (trim s) -> l <> [] ->
  includes [u "p5js"; u "phaser"] (toLowerCase l) = true ->
  let req := {| description := JString s; library := JString l |} in
  let rq := generate_request R s (Some (toLowerCase l)) in
  let w1 := generate_route_world (toLowerCase l) s w in
  calls (snd (api_generate req w)) = calls w ++ [MessagesCreate rq]
  /\ (toLowerCase l = u "phaser" /\ system_text (system rq) = phaserPrompt R
      \/ toLowerCase l = u "p5js" /\ system_text (system rq) = p5jsPrompt R)
  /\ messages rq = [{| role := u "user"; msg_content := s |}]
  /\ (forall m,
        answer_of_create rq w1 = inr m ->
        let code := stripMarkdownCodeBlocks (text_of_blocks [] (content m)) in
        caller (snd (api_generate req w))
        = json (Generated code (toLowerCase l)) (caller w)
        /\ TheCleanCode (snd (api_generate req w)) = code)
  /\ (forall err,
        answer_of_create rq w1 = inl err ->
        caller (snd (api_generate req w))
        = status_json 500 (Failure (message err)) (caller w)
        /\ TheCleanCode (snd (api_generate req w)) = TheCleanCode w).
Proof.
  intros Hs Hl Hin req rq w1. subst req.
  rewrite (generate_route_run R s l w Hs Hl Hin). fold w1.
  pose proof (generateGame_calls R Res s (Some (toLowerCase l)) w1) as Hc.
  split; [|split; [|split; [reflexivity|split]]].
  - destruct (generateGame _ _ w1) as [[e|c] w']; exact Hc.
  - unfold rq, includes in *. cbn [existsb] in Hin.
    cbn [generate_request system system_text map sys_text concat
         default_arg].
    rewrite app_nil_r. unfold select_prompt.
    destruct (jseqb (toLowerCase l) (u "phaser")) eqn:Eph.
    + left. split; [now apply jseqb_eq|reflexivity].
    + right. split; [|reflexivity].
      destruct (jseqb (toLowerCase l) (u "p5js")) eqn:Ep5;
        [now apply jseqb_eq|discriminate].
  - intros m E code.
    destruct (generateGame_answered R Res s (Some (toLowerCase l)) w1 m E)
      as (logs & e' & -> & _). now cbn [snd caller TheCleanCode].
  - intros err E.
    destruct (generateGame_failed R Res s (Some (toLowerCase l)) w1 err E)
      as (logs & e' & ->). now cbn [snd caller TheCleanCode].
Qed.

Lemma generate_route_answers_witness :
  let w := @initial_world demo_ok Res tt fresh_res in
  let req := {| description := JString (u "a bouncing ball");
                library := JString (u "Phaser") |} in
  5 <= length (trim (u "a bouncing ball"))
  /\ includes [u "p5js"; u "phaser"] (toLowerCase (u "Phaser")) = true
  /\ calls (snd (api_generate req w))
     = [MessagesCreate
          (generate_request demo_ok (u "a bouncing ball")
                            (Some (u "phaser")))]
  /\ system_text
       (system (generate_request demo_ok (u "a bouncing ball")
                                 (Some (u "phaser"))))
     = phaserPrompt demo_ok
  /\ caller (snd (api_generate req w))
     = json (Generated (u "let x = 1;") (u "phaser")) fresh_res.
Proof.
  intros w req.
  assert (Hs : 5 <= length (trim (u "a bouncing ball")))
    by (vm_compute; lia).
  assert (Hl : u "Phaser" <> []) by discriminate.
  assert (Hin : includes [u "p5js"; u "phaser"] (toLowerCase (u "Phaser"))
                = true) by reflexivity.
  destruct (generate_route_answers demo_ok (u "a bouncing ball")
              (u "Phaser") w Hs Hl Hin) as (Hc & Hp & _ & Hok & _).
  split; [exact Hs|]. split; [exact Hin|]. split; [exact Hc|].
  split; [destruct Hp as [[_ Hp]|[Hp _]]; [exact Hp|discriminate Hp]|].
  destruct (Hok _ eq_refl) as [Hcaller _].
  fold req in Hcaller. rewrite Hcaller. vm_compute. reflexivity.
Defined.

Lemma deliver_sse (evs : list StreamEvent) (res : Res) :
  deliver (Some sse_callback) evs res
  = {| statusCode := statusCode res; headers := headers res;
       body := body res ++ map SentData evs; ended := ended res |}.
Proof.
  simpl. revert res. induction evs as [|ev evs IH]; intros res.
  - simpl. rewrite app_nil_r. now destruct res.
  - simpl. rewrite IH. unfold sse_callback, write. simpl.
    now rewrite <- app_assoc.
Qed.

(** X15: a description or a library that is present but is no string
    (a number, [true], an object) is no validation error for either
    route: the method call on it throws, the one-shot route answers 500,
    the streaming route writes one error frame to a response whose status
    it never set; the provider is not called. *)
Theorem non_string_fields_are_server_errors
        (R : Runtime) (d l : jsval) (w : World R Res) :
  (truthy d = true /\ is_string d = false)
  \/ (exists s, d = JString s /\ 5 <= length (trim s)
                /\ truthy l = true /\ is_string l = false) ->
  let req := {| description := d; library := l |} in
  (exists msg,
     api_generate req w
     = (inr tt,
        {| TheCleanCode := TheCleanCode w; env := env w;
           console := console w ++ [LServerError msg];
           calls := calls w;
           caller := status_json 500 (Failure msg) (caller w) |}))
  /\ (exists msg,
        api_generate_stream req w
        = (inr tt,
           {| TheCleanCode := TheCleanCode w; env := env w;
              console := console w ++ [LStreamingServerError msg];
              calls := calls w;
              caller := end_res (write (SentData (EvError msg))
                                       (caller w)) |})).
Proof.
  intros [[Ht Hs]|(s & -> & Hlen & Ht & Hs)] req; subst req.
  - split; run_route; rewrite Ht; cbn [negb];
      destruct d; try discriminate; eexists; reflexivity.
  - split; run_route; rewrite (long_enough_is_truthy s Hlen); cbn [negb];
      apply Nat.ltb_ge in Hlen; rewrite Hlen.
    + rewrite Ht. cbn [negb].
      destruct l; try discriminate; eexists; reflexivity.
    + unfold js_or. rewrite Ht.
      destruct l; try discriminate; eexists; reflexivity.
Qed.

Lemma non_string_fields_are_server_errors_witness :
  let w := @initial_world demo_ok Res tt fresh_res in
  let req := {| description := JNumber 12345;
                library := JString (u "p5js") |} in
  truthy (JNumber 12345) = true /\ is_string (JNumber 12345) = false
  /\ statusCode (caller (snd (api_generate req w))) = 500%N
  /\ calls (snd (api_generate req w)) = [].
Proof.
  intros w req.
  destruct (non_string_fields_are_server_errors demo_ok (JNumber 12345)
              (JString (u "p5js")) w (or_introl (conj eq_refl eq_refl)))
    as [[msg H] _].
  fold req in H. rewrite H. repeat split.
Defined.

(** X16: the streaming route answers 400 as JSON, with no header set, no
    frame written, no call to the provider and the cell untouched, when
    the description is missing or empty, when it has fewer than five
    characters once trimmed, and when the library is a string that in
    lower case is neither ['p5js'] nor ['phaser']. *)
Theorem stream_route_rejects (R : Runtime) (req : Body) (w : World R Res) :
  truthy (description req) = false
  \/ (exists s, description req = JString s /\ length (trim s) < 5)
  \/ (exists s l, description req = JString s /\ 5 <= length (trim s)
                  /\ library req = JString l /\ l <> []
                  /\ includes [u "p5js"; u "phaser"] (toLowerCase l) = false)
  ->
  exists msg,
    api_generate_stream req w
    = (inr tt, with_caller (status_json 400 (Failure msg) (caller w)) w).
Proof.
  destruct req as [d l]. cbn [description library].
  intros [H|[(s & -> & H)|(s & l' & -> & Hs & -> & Hl & H)]].
  - run_route. rewrite H. cbn [negb]. eexists. reflexivity.
  - run_route. destruct (short_text_cases s) as [Ht|Ht]; rewrite Ht;
      cbn [negb]; [eexists; reflexivity|].
    apply Nat.ltb_lt in H. rewrite H. eexists. reflexivity.
  - run_route. rewrite (long_enough_is_truthy s Hs). cbn [negb].
    apply Nat.ltb_ge in Hs. rewrite Hs.
    assert (Ht : truthy (JString l') = true)
      by (destruct l'; [congruence|reflexivity]).
    unfold js_or. rewrite Ht, H. cbn [negb].
    eexists. reflexivity.
Qed.

Lemma stream_route_rejects_witness :
  let w := @initial_world demo_ok Res tt fresh_res in
  let req := {| description := JString (u "a bouncing ball");
                library := JString (u "three.js") |} in
  (exists s l, description req = JString s /\ 5 <= length (trim s)
               /\ library req = JString l /\ l <> []
               /\ includes [u "p5js"; u "phaser"] (toLowerCase l) = false)
  /\ exists msg,
       api_generate_stream req w
       = (inr tt, with_caller (status_json 400 (Failure msg) (caller w)) w).
Proof.
  intros w req.
  assert (H : exists s l, description req = JString s
                          /\ 5 <= length (trim s)
                          /\ library req = JString l /\ l <> []
                          /\ includes [u "p5js"; u "phaser"] (toLowerCase l)
                             = false).
  { exists (u "a bouncing ball"), (u "three.js").
    repeat split; try discriminate. vm_compute. lia. }
  split; [exact H|].
  exact (stream_route_rejects demo_ok req w (or_intror (or_intror H))).
Defined.

(** The streaming route on a request that passes its checks; [l] is the
    library after the default has been applied. *)
Lemma stream_route_run (R : Runtime) (s l : jsstring) (lib : jsval)
      (w : World R Res) :
  5 <= length (trim s) ->
  js_or lib (JString (u "p5js")) = JString l ->
  includes [u "p5js"; u "phaser"] (toLowerCase l) = true ->
  api_generate_stream {| description := JString s; library := lib |} w
  = match generateGameStreaming s (Some (toLowerCase l)) (Some sse_callback)
            (stream_route_world (toLowerCase l) s w) with
    | (inr _, w') => (inr tt, with_caller (end_res (caller w')) w')
    | (inl error, w') =>
        (inr tt,
         {| TheCleanCode := TheCleanCode w'; env := env w';
            console := console w' ++ [LStreamingServerError (message error)];
            calls := calls w';
            caller := end_res (write (SentData (EvError (message error)))
                                     (caller w')) |})
    end.
Proof.
  intros Hs Hlib Hin. run_route.
  rewrite (long_enough_is_truthy s Hs). cbn [negb].
  apply Nat.ltb_ge in Hs. rewrite Hs, Hlib, Hin. cbn [negb string_of].
  change (fun (data : StreamEvent) (res : Res) =>
            (@None Error, write (SentData data) res)) with sse_callback.
  unfold stream_route_world, sse_headers, with_caller.
  destruct (generateGameStreaming _ _ _ _) as [[error|c] w']; reflexivity.
Qed.

(** X17: a request that passes the checks of the streaming route, its
    library missing or given, gets the four event-stream headers, then
    one frame per chunk event in order, then the frame of the complete
    event, and the response is ended with the status it had; the cell
    holds the code of the complete event. *)
Theorem stream_route_frames
        (R : Runtime) (s l : jsstring) (lib : jsval) (w : World R Res)
        (m : Message) :
  5 <= length (trim s) ->
  js_or lib (JString (u "p5js")) = JString l ->
  includes [u "p5js"; u "phaser"] (toLowerCase l) = true ->
  let req := {| description := JString s; library := lib |} in
  let run := run_of_stream (stream_request R s (Some (toLowerCase l)))
               (stream_route_world (toLowerCase l) s w) in
  final run = inr m ->
  let code := stripMarkdownCodeBlocks (last_snapshot (texts run)) in
  exists totalTime,
    caller (snd (api_generate_stream req w))
    = {| statusCode := statusCode (caller w);
         headers := headers (caller w)
                    ++ [(u "Content-Type", u "text/event-stream");
                        (u "Cache-Control", u "no-cache");
                        (u "Connection", u "keep-alive");
                        (u "X-Accel-Buffering", u "no")];
         body := body (caller w)
                 ++ map SentData
                      (chunk_events 0 (texts run)
                       ++ [EvComplete code totalTime (length (texts run))
                                      (output_tokens (usage m))]);
         ended := true |}
    /\ TheCleanCode (snd (api_generate_stream req w)) = code.
Proof.
  intros Hs Hlib Hin req run Hfinal code. subst req.
  rewrite (stream_route_run R s l lib w Hs Hlib Hin).
  destruct (generateGameStreaming_answered R Res s (Some (toLowerCase l))
              (Some sse_callback) (stream_route_world (toLowerCase l) s w)
              m sse_callback_returns Hfinal) as (logs & e' & totalTime & -> & _).
  exists totalTime. cbn [snd with_caller caller TheCleanCode].
  rewrite deliver_sse. cbn [stream_route_world caller].
  unfold sse_headers, setHeader, end_res. cbn [statusCode headers body ended].
  rewrite <- !app_assoc. repeat split.
Qed.

Lemma stream_route_frames_witness :
  let w := @initial_world demo_ok Res tt fresh_res in
  let req := {| description := JString (u "a bouncing ball");
                library := JNull |} in
  5 <= length (trim (u "a bouncing ball"))
  /\ js_or JNull (JString (u "p5js")) = JString (u "p5js")
  /\ (exists totalTime,
        body (caller (snd (api_generate_stream req w)))
        = map SentData
            [EvChunk (u "```js" ++ [LF] ++ u "let x")
                     (u "```js" ++ [LF] ++ u "let x") 1;
             EvChunk (u " = 1;" ++ [LF] ++ u "```")
                     (u "```js" ++ [LF] ++ u "let x = 1;" ++ [LF] ++ u "```")
                     2;
             EvComplete (u "let x = 1;") totalTime 2 12])
  /\ TheCleanCode (snd (api_generate_stream req w)) = u "let x = 1;".
Proof.
  intros w req.
  assert (Hs : 5 <= length (trim (u "a bouncing ball")))
    by (vm_compute; lia).
  destruct (stream_route_frames demo_ok (u "a bouncing ball") (u "p5js")
              JNull w
              (scripted_message
                 ((u "```js" ++ [LF] ++ u "let x")
                  ++ (u " = 1;" ++ [LF] ++ u "```")) (u "end_turn"))
              Hs eq_refl eq_refl eq_refl) as (t & Hc & Hcell).
  split; [exact Hs|]. split; [reflexivity|]. split.
  - exists t. fold req in Hc. rewrite Hc. vm_compute. reflexivity.
  - fold req in Hcell. rewrite Hcell. vm_compute. reflexivity.
Defined.

(** X18: when the stream fails on the streaming route, the response
    carries the frames of the chunk events received and then the error
    frame twice, once written by the callback of [generateGameStreaming]
    and once by the route for the error thrown to it; the response is
    ended and the cell is as before. *)
Theorem stream_route_failure_frames
        (R : Runtime) (s l : jsstring) (lib : jsval) (w : World R Res)
        (err : Error) :
  5 <= length (trim s) ->
  js_or lib (JString (u "p5js")) = JString l ->
  includes [u "p5js"; u "phaser"] (toLowerCase l) = true ->
  let req := {| description := JString s; library := lib |} in
  let run := run_of_stream (stream_request R s (Some (toLowerCase l)))
               (stream_route_world (toLowerCase l) s w) in
  final run = inl err ->
  body (caller (snd (api_generate_stream req w)))
  = body (caller w)
    ++ map SentData (chunk_events 0 (texts run))
    ++ [SentData (EvError (message err)); SentData (EvError (message err))]
  /\ ended (caller (snd (api_generate_stream req w))) = true
  /\ statusCode (caller (snd (api_generate_stream req w)))
     = statusCode (caller w)
  /\ TheCleanCode (snd (api_generate_stream req w)) = TheCleanCode w.
Proof.
  intros Hs Hlib Hin req run Hfinal. subst req.
  rewrite (stream_route_run R s l lib w Hs Hlib Hin).
  destruct (generateGameStreaming_failed R Res s (Some (toLowerCase l))
              (Some sse_callback) (stream_route_world (toLowerCase l) s w)
              err sse_callback_returns Hfinal) as (logs & e' & ->).
  cbn [snd caller TheCleanCode]. rewrite deliver_sse.
  cbn [stream_route_world caller TheCleanCode].
  unfold sse_headers, setHeader, end_res, write.
  cbn [statusCode headers body ended].
  rewrite map_app. cbn [map]. rewrite <- !app_assoc. repeat split.
Qed.

Lemma stream_route_failure_frames_witness :
  let w := @initial_world demo_failing Res tt fresh_res in
  let req := {| description := JString (u "a bouncing ball");
                library := JString (u "p5js") |} in
  5 <= length (trim (u "a bouncing ball"))
  /\ body (caller (snd (api_generate_stream req w)))
     = [SentData (EvChunk (u "let") (u "let") 1);
        SentData (EvChunk (u " x") (u "let x") 2);
        SentData (EvError (u "overloaded"));
        SentData (EvError (u "overloaded"))].
Proof.
  intros w req.
  assert (Hs : 5 <= length (trim (u "a bouncing ball")))
    by (vm_compute; lia).
  destruct (stream_route_failure_frames demo_failing (u "a bouncing ball")
              (u "p5js") (JString (u "p5js")) w
              {| message := u "overloaded" |} Hs eq_refl eq_refl eq_refl)
    as (Hb & _).
  split; [exact Hs|]. fold req in Hb. rewrite Hb. reflexivity.
Defined.


